(** * Fitz-Man: the simulation core of [main.py]

    A shallow embedding of the [Game] class of [main.py]: the distance
    helpers, the ghost collision check, the life-loss and level-advance
    procedures, the fixed-rate [update] loop, the restart path of
    [handle_event], and the properties the specification states about them.

    Conventions.
    - Python integers are [Z]; [%] is [Z.modulo] (sign of the divisor) and
      raises [ZeroDivisionError] on a zero divisor.
    - Python floats ([engine_accum], [engine_dt], [dt]) are the kernel's
      binary64 floats.
    - A method that can raise returns a [result]; [self] is threaded
      explicitly as a [Game] record.
    - The level engine ([data/field.py]) and the host's file system are
      collaborators, taken through the classes [EngineAPI] and [HostAPI]. *)

From Stdlib Require Import ZArith Bool String PrimFloat FloatOps SpecFloat Lia.
From stdpp Require Import base option list.

Open Scope Z_scope.

(** ** Exceptions and results *)

Inductive exn : Set :=
| AttributeError
| IndexError
| ZeroDivisionError
| ValueError
| OverflowError
| TypeError
| SystemExit.

Inductive result (A : Type) : Type :=
| Ok (a : A)
| Raise (e : exn).

Arguments Ok {A} a.
Arguments Raise {A} e.

(** Sequencing stops at the first exception. *)
Definition bind {A B : Type} (m : result A) (k : A -> result B) : result B :=
  match m with
  | Ok a => k a
  | Raise e => Raise e
  end.

Notation "'do' x <- m ; k" := (bind m (fun x => k))
  (at level 10, x name, m at level 100, k at level 200,
   format "'[v' 'do'  x  <-  m ; '/' k ']'").

(** ** Module-level constants (lines 15-21) *)

Definition WINDOW_W : Z := 540.
Definition WINDOW_H : Z := 820.
Definition GRID_W : Z := 28.
Definition GRID_H : Z := 32.

(** ** Coordinate and distance helpers (lines 240-247) *)

Definition py_mod (a p : Z) : result Z :=
  if p =? 0 then Raise ZeroDivisionError else Ok (a mod p).

Definition _wrap_dist_x (a b period : Z) : result Z :=
  do a' <- py_mod a period;
  do b' <- py_mod b period;
  let d := Z.abs (a' - b') in
  Ok (Z.min d (period - d)).

Definition _dist_y (a b : Z) : Z := Z.abs (a - b).

(** The nested helper [signed_delta] of [_check_ghost_collision]
    (lines 294-299 and 307-312, the same text twice). *)
Definition signed_delta (a b period : Z) : result Z :=
  do a' <- py_mod a period;
  do b' <- py_mod b period;
  do d <- py_mod (a' - b') period;
  Ok (if period / 2 <? d then d - period else d).

(** ** The level engine's visible state

    [field.GameEngine] is a collaborator; [main.py] reads and writes the
    attributes below.  Whatever else an engine instance holds (pathing state,
    random seeds) is the component [engine_hidden]. *)

Record MovingObject : Type := {
  coordinateAbs : Z * Z;
  coordinateRel : Z * Z;
  isActive : bool;
  isCaged : bool;
  dirCurrent : string;
  dirNext : string
}.

Record LevelObject : Type := {
  name : string;
  isDestroyed : bool
}.

Record GameEngine (Hidden : Type) : Type := {
  movingObjectPacman : MovingObject;
  movingObjectGhosts : list MovingObject;
  levelObjects : list (list LevelObject);
  levelPelletRemaining : Z;
  engine_hidden : Hidden
}.

Arguments movingObjectPacman {Hidden} _.
Arguments movingObjectGhosts {Hidden} _.
Arguments levelObjects {Hidden} _.
Arguments levelPelletRemaining {Hidden} _.
Arguments engine_hidden {Hidden} _.

(** The engine's interface: [field.GameEngine()], [levelGenerate(level)] and
    [loopFunction()], each taken as a total function on engine states. *)
Class EngineAPI (Hidden : Type) : Type := {
  GameEngine_new : GameEngine Hidden;
  levelGenerate : GameEngine Hidden -> Z -> GameEngine Hidden;
  loopFunction : GameEngine Hidden -> GameEngine Hidden
}.

(** What the host provides: [level_file_exists n] is
    [os.path.exists(os.path.join("resource", f"level{n}.txt"))]. *)
Class HostAPI : Type := {
  level_file_exists : Z -> bool
}.

(** Python's [int()] on a float: truncation toward zero; a NaN and an
    infinity raise. *)
Definition py_int (f : float) : result Z :=
  match Prim2SF f with
  | S754_zero _ => Ok 0
  | S754_finite s m e =>
    let mag := if 0 <=? e then Z.pos m * 2 ^ e else Z.pos m / 2 ^ (- e) in
    Ok (if s then - mag else mag)
  | S754_infinity _ => Raise OverflowError
  | S754_nan => Raise ValueError
  end.

(** ** Events (the attributes of [pygame.event.Event] that [handle_event]
    reads); an attribute an event does not carry is [None]. *)

Inductive event_type : Set :=
| KEYDOWN | KEYUP
| MOUSEBUTTONDOWN | MOUSEBUTTONUP | MOUSEMOTION
| FINGERDOWN | FINGERUP
| QUIT.

Inductive keycode : Set :=
| K_ESCAPE | K_RETURN | K_SPACE
| K_LEFT | K_a | K_RIGHT | K_d | K_UP | K_w | K_DOWN | K_s
| K_OTHER (code : Z).

#[export] Instance event_type_eq_dec : EqDecision event_type.
Proof. solve_decision. Defined.

#[export] Instance keycode_eq_dec : EqDecision keycode.
Proof. solve_decision. Defined.

Record Event : Type := {
  etype : event_type;
  ekey : option keycode;
  epos : option (Z * Z);
  ex : option float;
  ey : option float
}.

(** Reading an attribute that is absent raises [AttributeError]. *)
Definition getattr {A : Type} (o : option A) : result A :=
  match o with
  | Some a => Ok a
  | None => Raise AttributeError
  end.

(** [hasattr(e, "pos")]. *)
Definition hasattr_pos (e : Event) : bool :=
  match epos e with Some _ => true | None => false end.

(** [e.type == pygame.KEYDOWN and e.key in keys]: [e.key] is read only for a
    key press. *)
Definition keydown_in (e : Event) (keys : list keycode) : result bool :=
  if bool_decide (etype e = KEYDOWN)
  then do k <- getattr (ekey e); Ok (bool_decide (k ∈ keys))
  else Ok false.

(** [e.type in (pygame.MOUSEBUTTONDOWN, pygame.MOUSEBUTTONUP)]. *)
Definition is_mouse_button (e : Event) : bool :=
  bool_decide (etype e ∈ [MOUSEBUTTONDOWN; MOUSEBUTTONUP]).

(** [KEY_TO_DIR] (lines 25-34). *)
Definition KEY_TO_DIR (k : keycode) : option string :=
  match k with
  | K_LEFT | K_a => Some "Left"%string
  | K_RIGHT | K_d => Some "Right"%string
  | K_UP | K_w => Some "Up"%string
  | K_DOWN | K_s => Some "Down"%string
  | _ => None
  end.

(** [pygame.Rect] and its [collidepoint]: left and top edges inclusive, right
    and bottom exclusive. *)
Record Rect : Type := {
  rect_left : Z;
  rect_top : Z;
  rect_w : Z;
  rect_h : Z
}.

(** A coordinate as [collidepoint] reads it.  pygame takes the Python
    integer through a C [long] into a C [int]: a value outside the range of
    a [long] (64 bits here) is refused and the method raises [TypeError];
    inside it the value is cut to 32 bits, two's complement. *)
Definition c_int (z : Z) : result Z :=
  if (- 2 ^ 63 <=? z) && (z <? 2 ^ 63)
  then Ok ((z + 2 ^ 31) mod 2 ^ 32 - 2 ^ 31)
  else Raise TypeError.

Definition collidepoint (r : Rect) (p : Z * Z) : result bool :=
  do x <- c_int p.1;
  do y <- c_int p.2;
  Ok ((rect_left r <=? x) && (x <? rect_left r + rect_w r) &&
      (rect_top r <=? y) && (y <? rect_top r + rect_h r)).

(** [self.start_btn] (line 156); [int(WINDOW_H * 0.64)] is [int(524.8)]. *)
Definition start_btn : Rect :=
  {| rect_left := (WINDOW_W - 180) / 2; rect_top := 524;
     rect_w := 180; rect_h := 56 |}.

(** [DPad] (lines 55-72). *)
Definition dpad_size : Z := 54.
Definition dpad_base_y : Z := WINDOW_H - (dpad_size * 3 + 12 * 2) - 30.
Definition dpad_base_x : Z := (WINDOW_W - dpad_size * 3) / 2.

Definition dpad_rect (dx dy : Z) : Rect :=
  {| rect_left := dpad_base_x + dx; rect_top := dpad_base_y + dy;
     rect_w := dpad_size; rect_h := dpad_size |}.

Definition dir_for_pos (p : Z * Z) : result (option string) :=
  do up <- collidepoint (dpad_rect dpad_size 0) p;
  if up then Ok (Some "Up"%string)
  else
    do down <- collidepoint (dpad_rect dpad_size (dpad_size * 2)) p;
    if down then Ok (Some "Down"%string)
    else
      do left <- collidepoint (dpad_rect 0 dpad_size) p;
      if left then Ok (Some "Left"%string)
      else
        do right <- collidepoint (dpad_rect (dpad_size * 2) dpad_size) p;
        if right then Ok (Some "Right"%string)
        else Ok None.

(** ** The session: the attributes of a [Game] instance that the simulation
    reads and writes (lines 127-138, 154, 172)

    [state] takes the two strings the class ever assigns, ["TITLE"] and
    ["PLAY"]; the terminal game-over condition is the flag [game_over]. *)

Inductive machine_state : Set := TITLE | PLAY.

#[export] Instance machine_state_eq_dec : EqDecision machine_state.
Proof. solve_decision. Defined.

Record Game (Hidden : Type) : Type := {
  score : Z;
  lives : Z;
  level : Z;
  game_over : bool;
  engine : GameEngine Hidden;
  engine_accum : float;
  state : machine_state;
  _anim_t : float
}.

Arguments score {Hidden} _.
Arguments lives {Hidden} _.
Arguments level {Hidden} _.
Arguments game_over {Hidden} _.
Arguments engine {Hidden} _.
Arguments engine_accum {Hidden} _.
Arguments state {Hidden} _.
Arguments _anim_t {Hidden} _.

(** [self.engine_dt = 1.0 / self.engine_hz] with [engine_hz = 10]; neither is
    assigned again. *)
Definition engine_dt : float := (1 / 10)%float.

(** [max_steps = 5] (line 343). *)
Definition max_steps : Z := 5.

(** How one pass through the body of the [while] loop of [update] ends. *)
Inductive body_outcome (Hidden : Type) : Type :=
| BodyNext (g : Game Hidden)      (* fell off the end of the body *)
| BodyReturn (g : Game Hidden)    (* [return] inside the body *)
| BodyRaise (e : exn).

(** How a call of [update] ends.  [StillLooping g steps] is what the model
    reports when the loop was followed for as many passes as asked and is
    about to start one more, with the session [g] and the local [steps]. *)
Inductive update_outcome (Hidden : Type) : Type :=
| Returned (g : Game Hidden)
| Raised (e : exn)
| StillLooping (g : Game Hidden) (steps : Z).

Section Model.
Context {Hidden : Type} `{!EngineAPI Hidden} `{!HostAPI}.

Local Abbreviation Engine := (GameEngine Hidden).
Local Abbreviation Session := (Game Hidden).

(** [e.movingObjectPacman.isActive = True]. *)
Definition activate_pacman (e : Engine) : Engine :=
  let p := movingObjectPacman e in
  {| movingObjectPacman :=
       {| coordinateAbs := coordinateAbs p; coordinateRel := coordinateRel p;
          isActive := true; isCaged := isCaged p;
          dirCurrent := dirCurrent p; dirNext := dirNext p |};
     movingObjectGhosts := movingObjectGhosts e;
     levelObjects := levelObjects e;
     levelPelletRemaining := levelPelletRemaining e;
     engine_hidden := engine_hidden e |}.

(** [e.movingObjectPacman.dirNext = d]. *)
Definition set_dirNext (e : Engine) (d : string) : Engine :=
  let p := movingObjectPacman e in
  {| movingObjectPacman :=
       {| coordinateAbs := coordinateAbs p; coordinateRel := coordinateRel p;
          isActive := isActive p; isCaged := isCaged p;
          dirCurrent := dirCurrent p; dirNext := d |};
     movingObjectGhosts := movingObjectGhosts e;
     levelObjects := levelObjects e;
     levelPelletRemaining := levelPelletRemaining e;
     engine_hidden := engine_hidden e |}.

(** [e.levelPelletRemaining = n]. *)
Definition set_levelPelletRemaining (e : Engine) (n : Z) : Engine :=
  {| movingObjectPacman := movingObjectPacman e;
     movingObjectGhosts := movingObjectGhosts e;
     levelObjects := levelObjects e;
     levelPelletRemaining := n;
     engine_hidden := engine_hidden e |}.

(** The three statements
    [field.GameEngine()], [levelGenerate(level)], [isActive = True]
    of [__init__] (133-135), [_lose_life] (327-329) and [reset_game]
    (388-390). *)
Definition fresh_engine (lv : Z) : Engine :=
  activate_pacman (levelGenerate GameEngine_new lv).

(** The session [__init__] leaves (lines 127-138, 154, 172). *)
Definition Game_init : Session :=
  {| score := 0; lives := 2; level := 1; game_over := false;
     engine := fresh_engine 1; engine_accum := 0%float;
     state := TITLE; _anim_t := 0%float |}.

(** [self.state = s]. *)
Definition set_state (g : Session) (s : machine_state) : Session :=
  {| score := score g; lives := lives g; level := level g;
     game_over := game_over g; engine := engine g;
     engine_accum := engine_accum g; state := s; _anim_t := _anim_t g |}.

(** [self.engine = e]. *)
Definition set_engine (g : Session) (e : Engine) : Session :=
  {| score := score g; lives := lives g; level := level g;
     game_over := game_over g; engine := e;
     engine_accum := engine_accum g; state := state g; _anim_t := _anim_t g |}.

(** *** [_lose_life] (lines 322-331); it always returns [True]. *)
Definition _lose_life (g : Session) : bool * Session :=
  let lives' := lives g - 1 in
  if lives' <? 0 then
    (true,
     {| score := score g; lives := lives'; level := level g;
        game_over := true; engine := engine g;
        engine_accum := engine_accum g; state := state g;
        _anim_t := _anim_t g |})
  else
    (true,
     {| score := score g; lives := lives'; level := level g;
        game_over := game_over g; engine := fresh_engine (level g);
        engine_accum := 0%float; state := state g;
        _anim_t := _anim_t g |}).

(** *** [_advance_level] (lines 370-379) *)
Definition _advance_level (g : Session) : Session :=
  let level1 := level g + 1 in
  let level2 := if level_file_exists level1 then level1 else 1 in
  {| score := score g; lives := lives g; level := level2;
     game_over := game_over g;
     engine :=
       activate_pacman
         (levelGenerate (set_levelPelletRemaining GameEngine_new 0) level2);
     engine_accum := 0%float; state := state g; _anim_t := _anim_t g |}.

(** *** [reset_game] (lines 382-394); a [Game] instance always has the
    attribute [engine_accum], so the [hasattr] test of line 393 holds. *)
Definition reset_game (g : Session) : Session :=
  {| score := 0; lives := 2; level := 1; game_over := false;
     engine := fresh_engine 1; engine_accum := 0%float;
     state := state g; _anim_t := _anim_t g |}.

(** *** [handle_event] (lines 179-238) *)

Definition restart (g : Session) : Session := set_state (reset_game g) TITLE.

Definition handle_event (g : Session) (e : Event) : result Session :=
  do esc <- keydown_in e [K_ESCAPE];
  if esc then Raise SystemExit
  else if game_over g then
    (* lines 184-201 *)
    do confirm <- keydown_in e [K_RETURN; K_SPACE];
    if confirm then Ok (restart g)
    else if is_mouse_button e && hasattr_pos e then Ok (restart g)
    else if bool_decide (etype e = FINGERDOWN) then Ok (restart g)
    else Ok g
  else if bool_decide (state g = TITLE) then
    (* lines 204-225 *)
    do confirm <- keydown_in e [K_RETURN; K_SPACE];
    if confirm then Ok (set_state g PLAY)
    else if is_mouse_button e then
      (* [hasattr(e, "pos") and self.start_btn.collidepoint(e.pos)]; a
         mouse button event is no finger event, so the test of line 217
         fails after it *)
      match epos e with
      | Some p =>
        do hit <- collidepoint start_btn p;
        if hit then Ok (set_state g PLAY) else Ok g
      | None => Ok g
      end
    else if bool_decide (etype e = FINGERDOWN) then
      do x <- getattr (ex e);
      do mx <- py_int (x * 540)%float;
      do y <- getattr (ey e);
      do my <- py_int (y * 820)%float;
      do hit <- collidepoint start_btn (mx, my);
      if hit then Ok (set_state g PLAY) else Ok g
    else Ok g
  else
    (* lines 228-238; the Escape test of line 229 cannot hold here *)
    do g1 <- (if bool_decide (etype e = KEYDOWN) then
            do k <- getattr (ekey e);
            match KEY_TO_DIR k with
            | Some d => Ok (set_engine g (set_dirNext (engine g) d))
            | None => Ok g
            end
          else Ok g);
    if bool_decide (etype e = MOUSEBUTTONDOWN) then
      do p <- getattr (epos e);
      do dir <- dir_for_pos p;
      match dir with
      | Some d => Ok (set_engine g1 (set_dirNext (engine g1) d))
      | None => Ok g1
      end
    else Ok g1.

(** *** [_check_ghost_collision] (lines 249-319) *)

Definition W_ABS : Z := GRID_W * 4.
Definition H_ABS : Z := GRID_H * 4.

(** [self._wrap_dist] (lines 283 and 284): the class [Game] defines
    [_wrap_dist_x] and [_dist_y] and no attribute of this name, so looking it
    up raises. *)
Definition _wrap_dist : result (Z -> Z -> Z -> result Z) :=
  Raise AttributeError.

(** [s_prev == 0 or s_now == 0 or (s_prev > 0) != (s_now > 0)]. *)
Definition crossed (s_prev s_now : Z) : bool :=
  (s_prev =? 0) || (s_now =? 0) || negb (Bool.eqb (0 <? s_prev) (0 <? s_now)).

(** One pass through the body of the [for] loop, for the ghost [gh] at
    index [i]; [prev] is [ghosts_prev_abs[i]] when the list is that long.
    [None] is falling through to the next ghost, [Some r] is [return r]. *)
Definition check_ghost (g : Session) (pac_prev_abs : Z * Z)
    (gh : MovingObject) (prev : option (Z * Z))
    : result (option (bool * Session)) :=
  let '(px, py) := coordinateAbs (movingObjectPacman (engine g)) in
  let '(px_prev, py_prev) := pac_prev_abs in
  if negb (isActive gh) || isCaged gh then Ok None
  else
    let '(gx, gy) := coordinateAbs gh in
    match prev with
    | None => Raise IndexError
    | Some (gx_prev, gy_prev) =>
      (* 1) overlap check, lines 275-279 *)
      do dx <- _wrap_dist_x px gx W_ABS;
      let dy := _dist_y py gy in
      if (dx <=? 3) && (dy <=? 3) then Ok (Some (_lose_life g))
      else
        (* 2) head-on cross check, lines 283-317 *)
        do wrap_dist <- _wrap_dist;
        do dx_prev <- wrap_dist px_prev gx_prev W_ABS;
        do dy_prev <- wrap_dist py_prev gy_prev H_ABS;
        do r1 <- (if (dy <=? 3) && (dy_prev <=? 3) then
                do s_prev <- signed_delta px_prev gx_prev W_ABS;
                do s_now <- signed_delta px gx W_ABS;
                if crossed s_prev s_now then Ok (Some (_lose_life g))
                else Ok None
              else Ok None);
        match r1 with
        | Some r => Ok (Some r)
        | None =>
          if (dx <=? 3) && (dx_prev <=? 3) then
            do s_prev <- signed_delta py_prev gy_prev H_ABS;
            do s_now <- signed_delta py gy H_ABS;
            if crossed s_prev s_now then Ok (Some (_lose_life g))
            else Ok None
          else Ok None
        end
    end.

(** The [for i, g in enumerate(self.engine.movingObjectGhosts)] loop from
    index [i] on, and the final [return False]. *)
Fixpoint check_ghosts_from (g : Session) (pac_prev_abs : Z * Z)
    (ghosts_prev_abs : list (Z * Z)) (i : nat) (ghosts : list MovingObject)
    : result (bool * Session) :=
  match ghosts with
  | [] => Ok (false, g)
  | gh :: rest =>
    do r <- check_ghost g pac_prev_abs gh (ghosts_prev_abs !! i);
    match r with
    | Some out => Ok out
    | None => check_ghosts_from g pac_prev_abs ghosts_prev_abs (S i) rest
    end
  end.

Definition _check_ghost_collision (g : Session) (pac_prev_abs : Z * Z)
    (ghosts_prev_abs : list (Z * Z)) : result (bool * Session) :=
  check_ghosts_from g pac_prev_abs ghosts_prev_abs 0
    (movingObjectGhosts (engine g)).

(** *** [update] (lines 334-368) *)

(** [obj.name == "pellet" and not obj.isDestroyed]. *)
Definition is_live_pellet (obj : LevelObject) : bool :=
  String.eqb (name obj) "pellet" && negb (isDestroyed obj).

(** The tile object after [obj.isDestroyed = True; obj.name = "empty"]. *)
Definition eaten : LevelObject := {| name := "empty"; isDestroyed := true |}.

(** The engine after the two tile assignments on [levelObjects[rx][ry]]
    ([col] is [levelObjects[rx]]) and [levelPelletRemaining -= 1]. *)
Definition eat_at (e : Engine) (rx ry : nat) (col : list LevelObject) : Engine :=
  {| movingObjectPacman := movingObjectPacman e;
     movingObjectGhosts := movingObjectGhosts e;
     levelObjects := <[rx := <[ry := eaten]> col]> (levelObjects e);
     levelPelletRemaining := levelPelletRemaining e - 1;
     engine_hidden := engine_hidden e |}.

(** Pellet handling, lines 355-365. *)
Definition pellet_step (g : Session) : result Session :=
  let e := engine g in
  let '(ax, ay) := coordinateAbs (movingObjectPacman e) in
  if (ax mod 4 =? 0) && (ay mod 4 =? 0) then
    let '(rx, ry) := coordinateRel (movingObjectPacman e) in
    if (0 <=? rx) && (rx <? GRID_W) && (0 <=? ry) && (ry <? GRID_H) then
      match levelObjects e !! Z.to_nat rx with
      | None => Raise IndexError
      | Some col =>
        match col !! Z.to_nat ry with
        | None => Raise IndexError
        | Some obj =>
          if is_live_pellet obj then
            Ok {| score := score g + 10; lives := lives g; level := level g;
                  game_over := game_over g;
                  engine := eat_at e (Z.to_nat rx) (Z.to_nat ry) col;
                  engine_accum := engine_accum g; state := state g;
                  _anim_t := _anim_t g |}
          else Ok g
        end
      end
    else Ok g
  else Ok g.

(** The session the collision check and the pellet handling of a pass
    start from: [g] after [self.engine.loopFunction()]. *)
Definition ticked (g : Session) : Session :=
  set_engine g (loopFunction (engine g)).

(** The body of the [while] loop, lines 346-368.  The test of line 368 is
    the last thing in the body: no statement stands under it, and nothing
    in the body assigns [steps] or takes [engine_dt] off [engine_accum]. *)
Definition loop_body (g : Session) : body_outcome Hidden :=
  let pac_prev := coordinateAbs (movingObjectPacman (engine g)) in
  let ghosts_prev := map coordinateAbs (movingObjectGhosts (engine g)) in
  let g1 := ticked g in
  match _check_ghost_collision g1 pac_prev ghosts_prev with
  | Raise e => BodyRaise _ e
  | Ok (true, g2) => BodyReturn _ g2
  | Ok (false, g2) =>
    match pellet_step g2 with
    | Raise e => BodyRaise _ e
    | Ok g3 =>
      if levelPelletRemaining (engine g3) <=? 0 then BodyNext _ g3
      else BodyNext _ g3
    end
  end.

(** [self.engine_accum >= self.engine_dt and steps < max_steps]. *)
Definition loop_test (g : Session) (steps : Z) : bool :=
  PrimFloat.leb engine_dt (engine_accum g) && (steps <? max_steps).

(** The [while] loop, followed for at most [passes] passes through its
    body. *)
Fixpoint update_loop (passes : nat) (g : Session) (steps : Z)
    : update_outcome Hidden :=
  if loop_test g steps then
    match passes with
    | O => StillLooping _ g steps
    | S n =>
      match loop_body g with
      | BodyNext _ g' => update_loop n g' steps
      | BodyReturn _ g' => Returned _ g'
      | BodyRaise _ e => Raised _ e
      end
    end
  else Returned _ g.

Definition update (passes : nat) (g : Session) (dt : float)
    : update_outcome Hidden :=
  if game_over g || negb (bool_decide (state g = PLAY)) then Returned _ g
  else
    let g1 :=
      {| score := score g; lives := lives g; level := level g;
         game_over := game_over g; engine := engine g;
         engine_accum := (engine_accum g + dt)%float; state := state g;
         _anim_t := (_anim_t g + dt)%float |} in
    update_loop passes g1 0.

(** ** Sessions the program can be in

    One step is a call of [handle_event] that returns, a call of [update]
    that returns, or a call of [update] observed between two passes of its
    loop.  (An exception other than [SystemExit] ends the process; so does
    [SystemExit], through [main].) *)
Inductive step : Session -> Session -> Prop :=
| step_event g e g' :
    handle_event g e = Ok g' -> step g g'
| step_update g dt passes g' :
    update passes g dt = Returned _ g' -> step g g'
| step_update_inside g dt passes g' steps :
    update passes g dt = StillLooping _ g' steps -> step g g'.

Inductive reachable : Session -> Prop :=
| reach_init : reachable Game_init
| reach_step g g' : reachable g -> step g g' -> reachable g'.

End Model.

Arguments BodyNext {Hidden} g.
Arguments BodyReturn {Hidden} g.
Arguments BodyRaise {Hidden} e.
Arguments Returned {Hidden} g.
Arguments Raised {Hidden} e.
Arguments StillLooping {Hidden} g steps.

(** ** One pass of the [while running] loop of [main] (lines 452-465)

    [pump_events] is the [for e in pygame.event.get()] loop: it gives the
    session and the value of [running] it leaves, or the exception that
    escapes it.  A [QUIT] event and a [SystemExit] out of [handle_event]
    both clear [running] and [break]; any other exception is not caught.
    [main_frame] then calls [update] with the frame's [dt], whatever
    [running] is.  ([draw] writes no attribute of the session.) *)

Section MainLoop.
Context {Hidden : Type} `{!EngineAPI Hidden}.

Fixpoint pump_events (g : Game Hidden) (events : list Event)
    : result (Game Hidden * bool) :=
  match events with
  | [] => Ok (g, true)
  | e :: rest =>
    if bool_decide (etype e = QUIT) then Ok (g, false)
    else
      match handle_event g e with
      | Ok g' => pump_events g' rest
      | Raise SystemExit => Ok (g, false)
      | Raise ex => Raise ex
      end
  end.

Definition main_frame (passes : nat) (g : Game Hidden) (events : list Event)
    (dt : float) : result (update_outcome Hidden * bool) :=
  match pump_events g events with
  | Ok (g1, running) => Ok (update passes g1 dt, running)
  | Raise ex => Raise ex
  end.

End MainLoop.

(** ** Pixel positions (lines 17-23, 174-177, 412-413) *)

Definition TILE : Z := 24.
Definition BOARD_W : Z := GRID_W * TILE.
Definition BOARD_H : Z := GRID_H * TILE.
Definition BOARD_X : Z := (WINDOW_W - BOARD_W) / 2.
Definition BOARD_Y : Z := 10.

(** An integer used where Python wants a float; exact below 2^53 in
    magnitude, which covers every coordinate here. *)
Definition float_of_Z (z : Z) : float :=
  if z <? 0 then (- of_uint63 (Uint63Axioms.of_Z (- z)))%float
  else of_uint63 (Uint63Axioms.of_Z z).

(** [ABS_TO_PX = TILE / 4.0]. *)
Definition ABS_TO_PX : float := (float_of_Z TILE / 4)%float.

(** [int(origin + a * ABS_TO_PX + TILE / 2)], one coordinate of
    [px_from_abs]. *)
Definition px_coord (origin a : Z) : result Z :=
  py_int (float_of_Z origin + float_of_Z a * ABS_TO_PX
          + float_of_Z TILE / float_of_Z 2)%float.

(** [px_from_abs], on the integer coordinates the engine holds. *)
Definition px_from_abs (ax ay : Z) : result (Z * Z) :=
  do px <- px_coord BOARD_X ax;
  do py <- px_coord BOARD_Y ay;
  Ok (px, py).

(** The centre [(cx, cy)] that [draw] gives tile [(x, y)]
    (lines 412-413). *)
Definition tile_centre (x y : Z) : Z * Z :=
  (BOARD_X + x * TILE + TILE / 2, BOARD_Y + y * TILE + TILE / 2).

(** ** A small concrete engine, to run the model on inputs

    The hidden state counts the calls of [loopFunction]; nothing moves.  A
    generated level has Fitz-Man on tile (1,1), one free ghost on the same
    spot, and two pellets. *)

Definition mover (abs rel : Z * Z) (active caged : bool) : MovingObject :=
  {| coordinateAbs := abs; coordinateRel := rel;
     isActive := active; isCaged := caged;
     dirCurrent := "Left"; dirNext := "Left" |}.

Definition tile (kind : string) : LevelObject :=
  {| name := kind; isDestroyed := false |}.

Definition board (pac : MovingObject) (ghosts : list MovingObject)
    (grid : list (list LevelObject)) (pellets : Z) (ticks : nat)
    : GameEngine nat :=
  {| movingObjectPacman := pac; movingObjectGhosts := ghosts;
     levelObjects := grid; levelPelletRemaining := pellets;
     engine_hidden := ticks |}.

Definition demo_grid : list (list LevelObject) :=
  [[tile "wall"; tile "wall"; tile "wall"];
   [tile "wall"; tile "pellet"; tile "empty"];
   [tile "wall"; tile "pellet"; tile "cage"]].

#[export] Instance demo_engine : EngineAPI nat :=
  {| GameEngine_new :=
       board (mover (0, 0) (0, 0) false false) [] [] 0 0;
     levelGenerate e lv :=
       board (mover (4, 4) (1, 1) false false)
             [mover (4, 4) (1, 1) true false] demo_grid
             (levelPelletRemaining e + 2) 0;
     loopFunction e :=
       board (movingObjectPacman e) (movingObjectGhosts e) (levelObjects e)
             (levelPelletRemaining e) (S (engine_hidden e)) |}.

(** [resource/level1.txt] and [resource/level2.txt] exist. *)
#[export] Instance demo_host : HostAPI :=
  {| level_file_exists n := (1 <=? n) && (n <=? 2) |}.

Definition session (sc lv lvl : Z) (over : bool) (e : GameEngine nat)
    (acc anim : float) (st : machine_state) : Game nat :=
  {| score := sc; lives := lv; level := lvl; game_over := over;
     engine := e; engine_accum := acc; state := st; _anim_t := anim |}.

Definition key_event (k : keycode) : Event :=
  {| etype := KEYDOWN; ekey := Some k; epos := None; ex := None; ey := None |}.

Definition mouse_event (t : event_type) (p : option (Z * Z)) : Event :=
  {| etype := t; ekey := None; epos := p; ex := None; ey := None |}.

Definition finger_event (x y : float) : Event :=
  {| etype := FINGERDOWN; ekey := None; epos := None;
     ex := Some x; ey := Some y |}.

(** Inputs the properties below are run on. *)

(** Fitz-Man and one free ghost swap places along a row in one tick:
    (0,0) -> (4,0) and (4,0) -> (0,0). *)
Definition swap_session : Game nat :=
  session 0 2 1 false
    (board (mover (4, 0) (1, 0) true false)
           [mover (0, 0) (0, 0) true false] demo_grid 2 0)
    0%float 0%float PLAY.

(** Two free ghosts: the first far from Fitz-Man, the second on top of
    him. *)
Definition two_ghost_session : Game nat :=
  session 0 2 1 false
    (board (mover (4, 4) (1, 1) true false)
           [mover (40, 40) (10, 10) true false;
            mover (4, 4) (1, 1) true false] demo_grid 2 0)
    0%float 0%float PLAY.

(** One free ghost on top of Fitz-Man, with [lv] lives left. *)
Definition caught_session (lv : Z) : Game nat :=
  session 30 lv 1 false
    (board (mover (4, 4) (1, 1) true false)
           [mover (5, 4) (1, 1) true false] demo_grid 2 7)
    0.25%float 0%float PLAY.

(** Fitz-Man alone on tile (1,1) with the only ghost caged; [grid] and
    [pellets] vary. *)
Definition quiet_session (sc : Z) (grid : list (list LevelObject))
    (pellets : Z) (ticks : nat) (acc anim : float) : Game nat :=
  session sc 2 1 false
    (board (mover (4, 4) (1, 1) true false)
           [mover (56, 56) (14, 14) true true] grid pellets ticks)
    acc anim PLAY.

(** A grid whose tile (1,1) holds the last pellet. *)
Definition last_pellet_grid : list (list LevelObject) :=
  [[tile "wall"; tile "wall"];
   [tile "wall"; tile "pellet"]].

(** The same grid once that pellet is eaten. *)
Definition cleared_grid : list (list LevelObject) :=
  [[tile "wall"; tile "wall"];
   [tile "wall"; {| name := "empty"; isDestroyed := true |}]].

(** A grid whose pellets are away from tile (1,1). *)
Definition far_pellet_grid : list (list LevelObject) :=
  [[tile "wall"; tile "pellet"];
   [tile "pellet"; tile "empty"]].

(** Fitz-Man on tile (1,1), where the last pellet lies, and one free ghost
    far from him, at (40,40). *)
Definition far_ghost_session (acc : float) : Game nat :=
  session 50 2 1 false
    (board (mover (4, 4) (1, 1) true false)
           [mover (40, 40) (10, 10) true false] last_pellet_grid 1 0)
    acc 0%float PLAY.

(** The session after the last life was lost. *)
Definition over_session : Game nat :=
  session 120 (-1) 1 true
    (board (mover (4, 4) (1, 1) true false)
           [mover (4, 4) (1, 1) true false] demo_grid 2 3)
    0.5%float 0%float PLAY.

(** ** Predicates the statements are written with *)

(** [wrapDistance(a, b, period)]: the shorter arc between two points on a
    ring; the value [_wrap_dist_x] computes for a nonzero period. *)
Definition wrapDistance (a b period : Z) : Z :=
  Z.min (Z.abs (a mod period - b mod period))
        (period - Z.abs (a mod period - b mod period)).

(** The overlap test of lines 275-278 on two absolute positions. *)
Definition overlapping (pac gh : Z * Z) : bool :=
  (wrapDistance pac.1 gh.1 W_ABS <=? 3) && (_dist_y pac.2 gh.2 <=? 3).

(** The tile object [grid[x][y]], when both indices are in range. *)
Definition tile_at (grid : list (list LevelObject)) (x y : nat)
    : option LevelObject :=
  match grid !! x with
  | Some col => col !! y
  | None => None
  end.

(** [ax % 4 == 0 and ay % 4 == 0] (line 357). *)
Definition on_tile_centre (m : MovingObject) : bool :=
  ((coordinateAbs m).1 mod 4 =? 0) && ((coordinateAbs m).2 mod 4 =? 0).

(** [0 <= rx < GRID_W and 0 <= ry < GRID_H] (line 359). *)
Definition in_grid (m : MovingObject) : bool :=
  (0 <=? (coordinateRel m).1) && ((coordinateRel m).1 <? GRID_W) &&
  (0 <=? (coordinateRel m).2) && ((coordinateRel m).2 <? GRID_H).

(** A pursuer that catches the player at the current sample by overlap:
    active, not caged, and within 3 of the position [pac] on both axes (wrap
    distance across, plain distance down), as lines 266 and 275-278 test
    it. *)
Definition catches (pac : Z * Z) (gh : MovingObject) : Prop :=
  isActive gh = true /\ isCaged gh = false /\
  exists dx : Z,
    _wrap_dist_x pac.1 (coordinateAbs gh).1 W_ABS = Ok dx /\
    dx <= 3 /\ _dist_y pac.2 (coordinateAbs gh).2 <= 3.

(** A ghost the [for] loop skips (line 266). *)
Definition skipped (gh : MovingObject) : bool :=
  negb (isActive gh) || isCaged gh.

(** The tile Fitz-Man's relative coordinates name. *)
Definition pac_tile {Hidden : Type} (e : GameEngine Hidden) : nat * nat :=
  (Z.to_nat (coordinateRel (movingObjectPacman e)).1,
   Z.to_nat (coordinateRel (movingObjectPacman e)).2).

(** The three conditions of an eat: Fitz-Man exactly on a tile centre, his
    relative coordinates inside the grid, and an undestroyed pellet on his
    tile. *)
Definition eat_conditions {Hidden : Type} (e : GameEngine Hidden) : bool :=
  on_tile_centre (movingObjectPacman e) && in_grid (movingObjectPacman e) &&
  match tile_at (levelObjects e) (pac_tile e).1 (pac_tile e).2 with
  | Some obj => is_live_pellet obj
  | None => false
  end.

(** What an eat changes, from the engine [e] and session [g] before it to
    the session [g'] after it. *)
Definition eat_effect {Hidden : Type} (e : GameEngine Hidden)
    (g g' : Game Hidden) : Prop :=
  score g' = score g + 10 /\
  levelPelletRemaining (engine g') = levelPelletRemaining e - 1 /\
  tile_at (levelObjects (engine g')) (pac_tile e).1 (pac_tile e).2
    = Some {| name := "empty"; isDestroyed := true |} /\
  (forall x y : nat,
     (x, y) <> pac_tile e ->
     tile_at (levelObjects (engine g')) x y = tile_at (levelObjects e) x y) /\
  movingObjectPacman (engine g') = movingObjectPacman e /\
  movingObjectGhosts (engine g') = movingObjectGhosts e /\
  engine_hidden (engine g') = engine_hidden e /\
  lives g' = lives g /\ level g' = level g /\
  game_over g' = game_over g /\ state g' = state g /\
  engine_accum g' = engine_accum g.

(** The inputs that restart a finished game: a press of Enter or Space, a
    mouse button going down or up on an event that carries a position, or a
    finger going down. *)
Definition restart_trigger (e : Event) : bool :=
  (bool_decide (etype e = KEYDOWN) &&
   bool_decide (ekey e ∈ [Some K_RETURN; Some K_SPACE])) ||
  (is_mouse_button e && hasattr_pos e) ||
  bool_decide (etype e = FINGERDOWN).

(** An event as [pygame.event.get()] delivers it to [main] (line 456): a
    key event carries [key], a mouse event [pos], a finger event [x] and
    [y]. *)
Definition delivered (e : Event) : bool :=
  match etype e with
  | KEYDOWN | KEYUP => bool_decide (is_Some (ekey e))
  | MOUSEBUTTONDOWN | MOUSEBUTTONUP | MOUSEMOTION =>
      bool_decide (is_Some (epos e))
  | FINGERDOWN | FINGERUP =>
      bool_decide (is_Some (ex e)) && bool_decide (is_Some (ey e))
  | QUIT => true
  end.

(** A confirm input (a press of Enter or Space), a pointer press or release,
    or a touch press. *)
Definition restart_input (e : Event) : bool :=
  (bool_decide (etype e = KEYDOWN) &&
   bool_decide (ekey e ∈ [Some K_RETURN; Some K_SPACE])) ||
  bool_decide (etype e ∈ [MOUSEBUTTONDOWN; MOUSEBUTTONUP]) ||
  bool_decide (etype e = FINGERDOWN).

(** A run of the concrete engine: started from the title screen, then one
    life lost in each of three calls of [update]. *)
Definition demo_life (lv : Z) (anim : float) : Game nat :=
  session 0 lv 1 false (fresh_engine 1) 0%float anim PLAY.

Definition demo_over : Game nat :=
  session 0 (-1) 1 true
    (board (mover (4, 4) (1, 1) true false)
           [mover (4, 4) (1, 1) true false] demo_grid 2 1)
    (0 + engine_dt)%float (0 + engine_dt + engine_dt + engine_dt)%float PLAY.

(** The bound on lives that every step keeps. *)
Definition lives_ok {Hidden : Type} (g : Game Hidden) : Prop :=
  -1 <= lives g /\ (game_over g = false -> 0 <= lives g).

(** The value [signed_delta] computes for a nonzero period: the offset of
    [a] from [b] on the ring, taken from the residue of [a - b]. *)
Definition signedDelta (a b period : Z) : Z :=
  if period / 2 <? (a - b) mod period then (a - b) mod period - period
  else (a - b) mod period.

(** The undestroyed pellets of a column and of a grid. *)
Fixpoint count_live (col : list LevelObject) : Z :=
  match col with
  | [] => 0
  | obj :: rest => (if is_live_pellet obj then 1 else 0) + count_live rest
  end.

Fixpoint live_pellets (grid : list (list LevelObject)) : Z :=
  match grid with
  | [] => 0
  | col :: rest => count_live col + live_pellets rest
  end.

(** An event that ends the main loop: [QUIT], or a press of Escape. *)
Definition quits (e : Event) : bool :=
  bool_decide (etype e = QUIT) ||
  (bool_decide (etype e = KEYDOWN) && bool_decide (ekey e = Some K_ESCAPE)).

(** A point whose coordinates fit a 32-bit C [int], as every pixel position
    does. *)
Definition in_int32 (p : Z * Z) : Prop :=
  - 2 ^ 31 <= p.1 < 2 ^ 31 /\ - 2 ^ 31 <= p.2 < 2 ^ 31.

(** The four squares of the on-screen pad, as pixel ranges. *)
Definition in_square (left top : Z) (p : Z * Z) : Prop :=
  left <= p.1 < left + 54 /\ top <= p.2 < top + 54.

(** Level, lives, flag and score as they are in every session the program
    can be in. *)
Definition session_ok {Hidden : Type} (g : Game Hidden) : Prop :=
  level g = 1 /\ -1 <= lives g <= 2 /\
  (game_over g = true <-> lives g = -1) /\
  exists k : nat, score g = 10 * Z.of_nat k.

(** ** Properties of the distance helpers *)

Lemma py_mod_nonzero (a p : Z) : p <> 0 -> py_mod a p = Ok (a mod p).
Proof.
  intros Hp. unfold py_mod.
  destruct (Z.eqb_spec p 0) as [->|_]; [contradiction | reflexivity].
Qed.

Lemma wrap_dist_x_value (a b p : Z) :
  p <> 0 -> _wrap_dist_x a b p = Ok (wrapDistance a b p).
Proof.
  intros Hp. unfold _wrap_dist_x.
  rewrite !py_mod_nonzero by assumption. reflexivity.
Qed.

Lemma wrap_dist_x_zero_period (a b : Z) :
  _wrap_dist_x a b 0 = Raise ZeroDivisionError.
Proof. reflexivity. Qed.

Lemma wrapDistance_sym (a b p : Z) : wrapDistance a b p = wrapDistance b a p.
Proof.
  unfold wrapDistance.
  replace (Z.abs (b mod p - a mod p)) with (Z.abs (a mod p - b mod p)) by lia.
  reflexivity.
Qed.

Lemma wrapDistance_bounds (a b p : Z) :
  0 < p -> 0 <= wrapDistance a b p /\ 2 * wrapDistance a b p <= p.
Proof.
  intros Hp. unfold wrapDistance.
  pose proof (Z.mod_pos_bound a p Hp) as Ha.
  pose proof (Z.mod_pos_bound b p Hp) as Hb.
  lia.
Qed.

(** C9.  For every period [p > 0] and all integers [a], [b],
    [_wrap_dist_x] returns, its value is the same with [a] and [b]
    exchanged, and that value lies between [0] and [p/2] (both as the
    integer quotient [p // 2] and as twice the value against [p]). *)
Theorem wrap_dist_x_symmetric_bounded (a b p : Z) :
  0 < p ->
  exists d : Z,
    _wrap_dist_x a b p = Ok d /\ _wrap_dist_x b a p = Ok d /\
    0 <= d /\ d <= p / 2 /\ 2 * d <= p.
Proof.
  intros Hp. exists (wrapDistance a b p).
  destruct (wrapDistance_bounds a b p Hp) as [H0 H2].
  repeat split.
  - apply wrap_dist_x_value; lia.
  - rewrite wrapDistance_sym. apply wrap_dist_x_value; lia.
  - exact H0.
  - apply Z.div_le_lower_bound; lia.
  - exact H2.
Qed.

Lemma wrap_dist_x_symmetric_bounded_witness :
  exists d : Z,
    _wrap_dist_x 1 111 112 = Ok d /\ _wrap_dist_x 111 1 112 = Ok d /\
    0 <= d /\ d <= 112 / 2 /\ 2 * d <= 112.
Proof. apply (wrap_dist_x_symmetric_bounded 1 111 112). lia. Defined.

(** ** Properties of the collision check *)

Section Collision.
Context {Hidden : Type} `{!EngineAPI Hidden} `{!HostAPI}.

Implicit Types (g : Game Hidden) (gh : MovingObject).

Lemma lose_life_true g : (_lose_life g).1 = true.
Proof. unfold _lose_life. destruct (lives g - 1 <? 0); reflexivity. Qed.

(** What one pass of the [for] loop does: a ghost that is not skipped
    needs its entry in [ghosts_prev_abs]; it then ends the check through
    [_lose_life] when it overlaps Fitz-Man, and otherwise line 283 raises. *)
Lemma check_ghost_eq g (pac_prev : Z * Z) gh (prev : option (Z * Z)) :
  check_ghost g pac_prev gh prev =
    if skipped gh then Ok None
    else match prev with
         | None => Raise IndexError
         | Some _ =>
           if overlapping (coordinateAbs (movingObjectPacman (engine g)))
                          (coordinateAbs gh)
           then Ok (Some (_lose_life g))
           else Raise AttributeError
         end.
Proof.
  unfold check_ghost, skipped, overlapping.
  destruct (coordinateAbs (movingObjectPacman (engine g))) as [px py].
  destruct pac_prev as [px_prev py_prev].
  destruct (negb (isActive gh) || isCaged gh); [reflexivity |].
  destruct (coordinateAbs gh) as [gx gy].
  destruct prev as [[gx_prev gy_prev] |]; [| reflexivity].
  rewrite wrap_dist_x_value by discriminate. cbn [bind fst snd].
  destruct ((wrapDistance px gx W_ABS <=? 3) && (_dist_y py gy <=? 3));
    reflexivity.
Qed.

(** Ghosts that are skipped do not change the outcome. *)
Lemma check_ghosts_from_skip g pac_prev gp (i : nat) (pre rest : list MovingObject) :
  forallb skipped pre = true ->
  check_ghosts_from g pac_prev gp i (pre ++ rest) =
  check_ghosts_from g pac_prev gp (i + length pre)%nat rest.
Proof.
  revert i. induction pre as [| gh pre IH]; intros i Hpre.
  - cbn. f_equal. lia.
  - cbn in Hpre. apply andb_prop in Hpre as [Hgh Hpre].
    cbn [app check_ghosts_from]. rewrite check_ghost_eq, Hgh.
    cbn [bind]. rewrite IH by assumption. f_equal. cbn. lia.
Qed.

(** The first ghost that is not skipped decides the check. *)
Lemma check_ghosts_from_contact g pac_prev gp (i : nat) pre gh rest p :
  forallb skipped pre = true ->
  skipped gh = false ->
  gp !! (i + length pre)%nat = Some p ->
  check_ghosts_from g pac_prev gp i (pre ++ gh :: rest) =
    if overlapping (coordinateAbs (movingObjectPacman (engine g)))
                   (coordinateAbs gh)
    then Ok (_lose_life g)
    else Raise AttributeError.
Proof.
  intros Hpre Hgh Hp.
  rewrite check_ghosts_from_skip by assumption.
  cbn [check_ghosts_from]. rewrite check_ghost_eq, Hgh, Hp.
  destruct (overlapping _ _); reflexivity.
Qed.

(** When every ghost is skipped the check returns [False] and the session
    is the one it was given. *)
Lemma check_all_skipped g pac_prev gp :
  forallb skipped (movingObjectGhosts (engine g)) = true ->
  _check_ghost_collision g pac_prev gp = Ok (false, g).
Proof.
  intros Hall. unfold _check_ghost_collision.
  rewrite <- (app_nil_r (movingObjectGhosts (engine g))).
  rewrite check_ghosts_from_skip by assumption. reflexivity.
Qed.

Lemma check_ghosts_from_cases g pac_prev gp (i : nat) (ghosts : list MovingObject) :
  check_ghosts_from g pac_prev gp i ghosts = Ok (false, g) \/
  check_ghosts_from g pac_prev gp i ghosts = Ok (_lose_life g) \/
  exists e, check_ghosts_from g pac_prev gp i ghosts = Raise e.
Proof.
  revert i. induction ghosts as [| gh rest IH]; intros i.
  - left. reflexivity.
  - cbn [check_ghosts_from]. rewrite check_ghost_eq.
    destruct (skipped gh); [apply IH |].
    destruct (gp !! i); [| right; right; eexists; reflexivity].
    destruct (overlapping _ _).
    + right; left. reflexivity.
    + right; right. eexists; reflexivity.
Qed.

(** The three ways a call of the check can end. *)
Lemma check_collision_cases g (pac_prev : Z * Z) (gp : list (Z * Z)) :
  _check_ghost_collision g pac_prev gp = Ok (false, g) \/
  _check_ghost_collision g pac_prev gp = Ok (_lose_life g) \/
  exists e, _check_ghost_collision g pac_prev gp = Raise e.
Proof. apply check_ghosts_from_cases. Qed.

Lemma skipped_false_iff gh :
  skipped gh = false <-> isActive gh = true /\ isCaged gh = false.
Proof. unfold skipped. destruct (isActive gh), (isCaged gh); cbn; intuition. Qed.

Lemma overlapping_catches (pac : Z * Z) gh :
  skipped gh = false ->
  overlapping pac (coordinateAbs gh) = true ->
  catches pac gh.
Proof.
  intros Hfree Hover. apply skipped_false_iff in Hfree as [Hact Hcage].
  unfold overlapping in Hover. apply andb_prop in Hover as [Hdx Hdy].
  apply Z.leb_le in Hdx. apply Z.leb_le in Hdy.
  split; [exact Hact |]. split; [exact Hcage |].
  exists (wrapDistance pac.1 (coordinateAbs gh).1 W_ABS).
  split; [apply wrap_dist_x_value; discriminate |]. split; assumption.
Qed.

Lemma check_ghosts_from_returns g pac_prev gp (i : nat)
    (ghosts : list MovingObject) (b : bool) g' :
  check_ghosts_from g pac_prev gp i ghosts = Ok (b, g') ->
  (b = false /\ g' = g /\ forallb skipped ghosts = true) \/
  (b = true /\ g' = (_lose_life g).2 /\
   exists gh, In gh ghosts /\
     catches (coordinateAbs (movingObjectPacman (engine g))) gh).
Proof.
  revert i. induction ghosts as [| gh rest IH]; intros i.
  - cbn. intros [= <- <-]. left. auto.
  - cbn [check_ghosts_from forallb]. rewrite check_ghost_eq.
    destruct (skipped gh) eqn:Hgh; cbn [bind andb].
    + intros Hret.
      destruct (IH _ Hret) as [Hf | (Hb & Hg & gh' & Hin & Hcatch)];
        [left; exact Hf | right].
      split; [exact Hb |]. split; [exact Hg |].
      exists gh'. split; [right; exact Hin | exact Hcatch].
    + destruct (gp !! i); [| discriminate].
      destruct (overlapping _ _) eqn:Hover; [| discriminate].
      pose proof (lose_life_true g) as Ht.
      destruct (_lose_life g) as [b0 g0]. cbn in Ht. subst b0.
      cbn [bind]. intros [= <- <-]. right.
      split; [reflexivity |]. split; [reflexivity |].
      exists gh. split; [left; reflexivity |].
      apply overlapping_catches; assumption.
Qed.

(** C3, as amended.  Whenever the collision check returns, its boolean
    tells whether a pursuer caught the player: it is [True] only when some
    active, non-caged pursuer overlaps the player at the current sample,
    and [False] only when no pursuer is both active and not caged, so that
    none overlaps.  The check is not observation-only: on [False] the
    session is the one it was given; on [True] it is the session that
    [_lose_life] leaves, the check having run the life-loss procedure
    itself (lives one lower; the game-over flag set when they went below
    zero, and otherwise a fresh engine for the same level and an empty time
    budget).  Its caller takes no terminal action of its own: when the
    check of a tick returns [True], the pass of the loop of [update]
    returns, and so does [update], with the session exactly as the check
    left it. *)
Theorem check_collision_effect g (pac_prev : Z * Z) (gp : list (Z * Z))
    (b : bool) (g' : Game Hidden) :
  _check_ghost_collision g pac_prev gp = Ok (b, g') ->
  (b = true ->
   exists gh, In gh (movingObjectGhosts (engine g)) /\
     catches (coordinateAbs (movingObjectPacman (engine g))) gh) /\
  (b = false ->
   g' = g /\
   forall gh, In gh (movingObjectGhosts (engine g)) ->
     (isActive gh = false \/ isCaged gh = true) /\
     ~ catches (coordinateAbs (movingObjectPacman (engine g))) gh) /\
  (b = true ->
   g' = (_lose_life g).2 /\ lives g' = lives g - 1 /\
   (if lives g - 1 <? 0
    then game_over g' = true /\ engine g' = engine g /\
         engine_accum g' = engine_accum g
    else game_over g' = game_over g /\ engine g' = fresh_engine (level g) /\
         engine_accum g' = 0%float)) /\
  (b = true ->
   forall (g0 : Game Hidden) (n : nat) (steps : Z),
     ticked g0 = g ->
     coordinateAbs (movingObjectPacman (engine g0)) = pac_prev ->
     map coordinateAbs (movingObjectGhosts (engine g0)) = gp ->
     loop_body g0 = BodyReturn g' /\
     (loop_test g0 steps = true ->
      update_loop (S n) g0 steps = Returned g')).
Proof.
  intros Hret. pose proof Hret as Hcases. unfold _check_ghost_collision in Hcases.
  apply check_ghosts_from_returns in Hcases.
  destruct Hcases as [(-> & -> & Hall) | (-> & -> & Hcatch)].
  - split; [discriminate |]. split; [| split; discriminate].
    intros _. split; [reflexivity |]. intros gh Hin.
    rewrite forallb_forall in Hall. specialize (Hall gh Hin).
    assert (Hidle : isActive gh = false \/ isCaged gh = true).
    { unfold skipped in Hall. destruct (isActive gh), (isCaged gh);
        cbn in Hall; auto; discriminate. }
    split; [exact Hidle |].
    intros (Hact & Hcage & _). destruct Hidle; congruence.
  - split; [intros _; exact Hcatch |]. split; [discriminate |]. split.
    + intros _. split; [reflexivity |].
      unfold _lose_life. destruct (lives g - 1 <? 0); cbn; auto.
    + intros _ g0 n steps Htick Hpac Hghosts.
      assert (Hbody : loop_body g0 = BodyReturn (_lose_life g).2).
      { unfold loop_body. rewrite Htick, Hpac, Hghosts, Hret. reflexivity. }
      split; [exact Hbody |].
      intros Htest. cbn [update_loop]. rewrite Htest, Hbody. reflexivity.
Qed.

(** The check as a whole, read at the first ghost it does not skip: it
    returns [True] through [_lose_life] when that ghost overlaps Fitz-Man,
    whatever the previous sample was, and raises otherwise. *)
Lemma check_first_contact g pac_prev gp pre gh rest p :
  movingObjectGhosts (engine g) = pre ++ gh :: rest ->
  forallb skipped pre = true ->
  skipped gh = false ->
  gp !! length pre = Some p ->
  _check_ghost_collision g pac_prev gp =
    if overlapping (coordinateAbs (movingObjectPacman (engine g)))
                   (coordinateAbs gh)
    then Ok (_lose_life g)
    else Raise AttributeError.
Proof.
  intros Hghosts Hpre Hgh Hp. unfold _check_ghost_collision.
  rewrite Hghosts. apply check_ghosts_from_contact with (p := p); assumption.
Qed.

End Collision.

Lemma check_collision_effect_witness :
  _check_ghost_collision
    (ticked (caught_session 2)) (4, 4) [(5, 4)]
    = Ok (true, (_lose_life (ticked (caught_session 2))).2) /\
  (exists gh,
     In gh (movingObjectGhosts (engine (ticked (caught_session 2)))) /\
     catches
       (coordinateAbs (movingObjectPacman (engine (ticked (caught_session 2)))))
       gh) /\
  lives (_lose_life (ticked (caught_session 2))).2 = 1 /\
  engine_accum (_lose_life (ticked (caught_session 2))).2 = 0%float /\
  loop_body (caught_session 2)
    = BodyReturn (_lose_life (ticked (caught_session 2))).2 /\
  update_loop 1 (caught_session 2) 0
    = Returned (_lose_life (ticked (caught_session 2))).2.
Proof.
  assert (Hret :
    _check_ghost_collision (ticked (caught_session 2)) (4, 4) [(5, 4)]
      = Ok (true, (_lose_life (ticked (caught_session 2))).2))
    by reflexivity.
  destruct (check_collision_effect _ _ _ _ _ Hret)
    as (Hcatch & _ & Hlife & Hcaller).
  destruct (Hlife eq_refl) as (_ & Hlives & Hrest).
  destruct (Hcaller eq_refl (caught_session 2) 0%nat 0 eq_refl eq_refl eq_refl)
    as [Hbody Hloop].
  split; [exact Hret |]. split; [exact (Hcatch eq_refl) |].
  split; [exact Hlives |]. split; [apply Hrest |].
  split; [exact Hbody |]. apply Hloop. reflexivity.
Defined.

(** C3, as stated, fails: a call of the collision check on a session with
    two lives, where the ghost overlaps Fitz-Man, returns [True] and leaves
    one life, a fresh engine and an empty time budget; with no life left
    the same call sets the game-over flag. *)
Lemma check_collision_changes_session :
  (exists g' : Game nat,
     _check_ghost_collision (caught_session 2) (4, 4) [(5, 4)] = Ok (true, g') /\
     lives (caught_session 2) = 2 /\ lives g' = 1 /\
     engine g' <> engine (caught_session 2) /\
     engine_accum (caught_session 2) = 0.25%float /\
     engine_accum g' = 0%float) /\
  (exists g' : Game nat,
     _check_ghost_collision (caught_session 0) (4, 4) [(5, 4)] = Ok (true, g') /\
     lives g' = -1 /\
     game_over (caught_session 0) = false /\ game_over g' = true).
Proof.
  split.
  - exists (_lose_life (caught_session 2)).2.
    repeat split; try reflexivity. cbn. discriminate.
  - exists (_lose_life (caught_session 0)).2.
    repeat split; reflexivity.
Qed.

(** C1, on the code.  Fitz-Man moves (0,0) -> (4,0) while a free ghost
    moves (4,0) -> (0,0): they stay on one row ([dy] is 0 at both samples),
    the overlap test misses ([dx] is 4), and the signed horizontal delta
    goes from -4 to 4.  The check does not return [True]: line 283 raises
    [AttributeError]. *)
Theorem tunneling_check_raises :
  skipped (mover (0, 0) (0, 0) true false) = false /\
  _wrap_dist_x 4 0 W_ABS = Ok 4 /\
  overlapping (4, 0) (0, 0) = false /\
  _dist_y 0 0 = 0 /\
  signed_delta 0 4 W_ABS = Ok (-4) /\
  signed_delta 4 0 W_ABS = Ok 4 /\
  crossed (-4) 4 = true /\
  _check_ghost_collision swap_session (0, 0) [(4, 0)] = Raise AttributeError.
Proof. repeat split; reflexivity. Qed.

(** C4, on the code.  With two free ghosts, the first far away and the
    second on top of Fitz-Man, the check does not return [True]: the pass
    for the first ghost raises [AttributeError] at line 283 before the
    second is looked at. *)
Theorem overlap_behind_free_ghost_raises :
  movingObjectGhosts (engine two_ghost_session)
    = [mover (40, 40) (10, 10) true false; mover (4, 4) (1, 1) true false] /\
  skipped (mover (4, 4) (1, 1) true false) = false /\
  overlapping (coordinateAbs (movingObjectPacman (engine two_ghost_session)))
              (4, 4) = true /\
  _check_ghost_collision two_ghost_session (4, 4) [(40, 40); (4, 4)]
    = Raise AttributeError /\
  _check_ghost_collision two_ghost_session (4, 4) [(36, 40); (8, 4)]
    = Raise AttributeError.
Proof. repeat split; reflexivity. Qed.

(** ** Properties of the lifecycle procedures *)

Section Lifecycle.
Context {Hidden : Type} `{!EngineAPI Hidden} `{!HostAPI}.

Lemma activate_pacman_active (e : GameEngine Hidden) :
  isActive (movingObjectPacman (activate_pacman e)) = true.
Proof. reflexivity. Qed.

(** C5.  Life loss.  On a session with 0 lives, [_lose_life] leaves -1
    lives and the game-over flag set, and keeps the engine (the level
    state), the level, the score, the time budget and [state].  On a
    session with 1 life it leaves 0 lives, keeps [state] and the game-over
    flag as they were, installs a fresh engine generated for the same level
    with Fitz-Man active, and sets the time budget to 0.0. *)
Theorem lose_life_spec (sc lvl : Z) (over : bool) (e : GameEngine Hidden)
    (acc anim : float) (st : machine_state) :
  _lose_life {| score := sc; lives := 0; level := lvl; game_over := over;
                engine := e; engine_accum := acc; state := st;
                _anim_t := anim |}
    = (true,
       {| score := sc; lives := -1; level := lvl; game_over := true;
          engine := e; engine_accum := acc; state := st;
          _anim_t := anim |}) /\
  _lose_life {| score := sc; lives := 1; level := lvl; game_over := over;
                engine := e; engine_accum := acc; state := st;
                _anim_t := anim |}
    = (true,
       {| score := sc; lives := 0; level := lvl; game_over := over;
          engine := activate_pacman (levelGenerate GameEngine_new lvl);
          engine_accum := 0%float; state := st; _anim_t := anim |}) /\
  isActive
    (movingObjectPacman
       (activate_pacman (levelGenerate GameEngine_new lvl))) = true.
Proof. repeat split. Qed.

(** [_lose_life] takes exactly one life and touches neither the score nor
    the level nor [state]. *)
Lemma lose_life_frame (g : Game Hidden) :
  lives (_lose_life g).2 = lives g - 1 /\
  score (_lose_life g).2 = score g /\
  level (_lose_life g).2 = level g /\
  state (_lose_life g).2 = state g /\
  (game_over (_lose_life g).2 = true \/
   game_over (_lose_life g).2 = game_over g /\ 0 <= lives g - 1).
Proof.
  unfold _lose_life. destruct (Z.ltb_spec (lives g - 1) 0); cbn; auto 10.
Qed.

(** What [_advance_level] does when it is called: the level index goes up
    by one, or back to 1 when the next level file does not exist; a fresh
    engine is generated for that level with Fitz-Man active; the time budget
    is 0.0; score and lives stay. *)
Lemma advance_level_spec (g : Game Hidden) :
  level (_advance_level g)
    = (if level_file_exists (level g + 1) then level g + 1 else 1) /\
  engine (_advance_level g)
    = activate_pacman
        (levelGenerate (set_levelPelletRemaining GameEngine_new 0)
                       (level (_advance_level g))) /\
  isActive (movingObjectPacman (engine (_advance_level g))) = true /\
  engine_accum (_advance_level g) = 0%float /\
  score (_advance_level g) = score g /\
  lives (_advance_level g) = lives g /\
  game_over (_advance_level g) = game_over g /\
  state (_advance_level g) = state g.
Proof. repeat split. Qed.

End Lifecycle.

(** ** Properties of [update] *)

Section Update.
Context {Hidden : Type} `{!EngineAPI Hidden} `{!HostAPI}.

Implicit Types (g : Game Hidden) (e : GameEngine Hidden).

Lemma is_live_pellet_iff (obj : LevelObject) :
  is_live_pellet obj = true <->
  name obj = "pellet"%string /\ isDestroyed obj = false.
Proof.
  unfold is_live_pellet. rewrite andb_true_iff, String.eqb_eq, negb_true_iff.
  reflexivity.
Qed.

Lemma tile_at_eat (grid : list (list LevelObject)) (x y : nat)
    (col : list LevelObject) (obj : LevelObject) :
  grid !! x = Some col -> col !! y = Some obj ->
  tile_at (<[x := <[y := eaten]> col]> grid) x y = Some eaten /\
  forall x' y' : nat,
    (x', y') <> (x, y) ->
    tile_at (<[x := <[y := eaten]> col]> grid) x' y' = tile_at grid x' y'.
Proof.
  intros Hcol Hobj.
  pose proof (lookup_lt_Some _ _ _ Hcol) as Hx.
  pose proof (lookup_lt_Some _ _ _ Hobj) as Hy.
  unfold tile_at. split.
  - rewrite list_lookup_insert_eq by assumption.
    apply list_lookup_insert_eq. assumption.
  - intros x' y' Hne. destruct (decide (x' = x)) as [-> | Hx'].
    + rewrite list_lookup_insert_eq by assumption. rewrite Hcol.
      apply list_lookup_insert_ne. congruence.
    + rewrite list_lookup_insert_ne by congruence. reflexivity.
Qed.

(** Pellet handling, lines 355-365: when it does not raise, it credits an
    eat exactly under [eat_conditions], and what it leaves meets them no
    more. *)
Lemma pellet_step_spec g g' :
  pellet_step g = Ok g' ->
  (if eat_conditions (engine g) then eat_effect (engine g) g g' else g' = g) /\
  eat_conditions (engine g') = false /\
  pellet_step g' = Ok g'.
Proof.
  unfold pellet_step, eat_conditions, on_tile_centre, in_grid, pac_tile.
  destruct (coordinateAbs (movingObjectPacman (engine g))) as [ax ay] eqn:Habs.
  destruct (coordinateRel (movingObjectPacman (engine g))) as [rx ry] eqn:Hrel.
  cbn [fst snd].
  destruct ((ax mod 4 =? 0) && (ay mod 4 =? 0)) eqn:Hcentre; cbn [andb].
  2:{ intros [= <-]. rewrite Habs. cbn [fst snd]. rewrite Hcentre. auto. }
  destruct ((0 <=? rx) && (rx <? GRID_W) && (0 <=? ry) && (ry <? GRID_H))
    eqn:Hgrid; cbn [andb].
  2:{ intros [= <-]. rewrite Habs, Hrel. cbn [fst snd].
      rewrite Hcentre, Hgrid. auto. }
  unfold tile_at at 1.
  destruct (levelObjects (engine g) !! Z.to_nat rx) as [col |] eqn:Hcol;
    [| discriminate].
  destruct (col !! Z.to_nat ry) as [obj |] eqn:Hobj; [| discriminate].
  destruct (is_live_pellet obj) eqn:Hlive.
  - intros [= <-]. cbn [engine eat_at movingObjectPacman levelObjects].
    destruct (tile_at_eat _ _ _ _ _ Hcol Hobj) as [Hnew Hothers].
    rewrite Habs, Hrel. cbn [fst snd]. rewrite Hcentre, Hgrid, Hnew.
    cbn [andb]. split; [| split; [reflexivity |]].
    + unfold eat_effect, pac_tile. rewrite Hrel.
      cbn [fst snd score lives level game_over state engine engine_accum
           eat_at levelObjects levelPelletRemaining movingObjectPacman
           movingObjectGhosts engine_hidden].
      repeat split; try reflexivity; assumption.
    + unfold tile_at in Hnew.
      destruct (<[Z.to_nat rx := <[Z.to_nat ry := eaten]> col]>
                  (levelObjects (engine g)) !! Z.to_nat rx) as [col' |];
        [| discriminate].
      rewrite Hnew. reflexivity.
  - intros [= <-]. rewrite Habs, Hrel. cbn [fst snd].
    rewrite Hcentre, Hgrid. unfold tile_at. rewrite Hcol, Hobj, Hlive.
    auto.
Qed.

End Update.

Section UpdateLoop.
Context {Hidden : Type} `{!EngineAPI Hidden} `{!HostAPI}.

Implicit Types (g : Game Hidden) (e : GameEngine Hidden).

(** A pass that falls off the end of the body had no collision, and its
    result is what pellet handling made of the ticked session. *)
Lemma loop_body_next g g' :
  loop_body g = BodyNext g' ->
  _check_ghost_collision (ticked g)
    (coordinateAbs (movingObjectPacman (engine g)))
    (map coordinateAbs (movingObjectGhosts (engine g))) = Ok (false, ticked g) /\
  pellet_step (ticked g) = Ok g'.
Proof.
  unfold loop_body. fold (ticked g). intros Hbody.
  destruct (check_collision_cases (ticked g)
              (coordinateAbs (movingObjectPacman (engine g)))
              (map coordinateAbs (movingObjectGhosts (engine g))))
    as [Hc | [Hc | [ex Hc]]]; rewrite Hc in Hbody |- *.
  - split; [reflexivity |].
    destruct (pellet_step (ticked g)) as [g3 | ex]; [| discriminate].
    destruct (levelPelletRemaining (engine g3) <=? 0); congruence.
  - pose proof (lose_life_true (ticked g)) as Ht.
    destruct (_lose_life (ticked g)) as [b g2]. cbn in Ht. subst b.
    discriminate.
  - discriminate.
Qed.

(** A pass that returns does so through [_lose_life]. *)
Lemma loop_body_return g g' :
  loop_body g = BodyReturn g' -> g' = (_lose_life (ticked g)).2.
Proof.
  unfold loop_body. fold (ticked g). intros Hbody.
  destruct (check_collision_cases (ticked g)
              (coordinateAbs (movingObjectPacman (engine g)))
              (map coordinateAbs (movingObjectGhosts (engine g))))
    as [Hc | [Hc | [ex Hc]]]; rewrite Hc in Hbody.
  - destruct (pellet_step (ticked g)) as [g3 | ex]; [| discriminate].
    destruct (levelPelletRemaining (engine g3) <=? 0); discriminate.
  - pose proof (lose_life_true (ticked g)) as Ht.
    destruct (_lose_life (ticked g)) as [b g2]. cbn in Ht. subst b.
    cbn. congruence.
  - discriminate.
Qed.

(** Pellet eat, in a pass of the loop that falls off the end of the body
    (every ghost idle or caged), after the engine tick: when Fitz-Man's
    absolute coordinates are both multiples of 4, his relative coordinates
    are inside the grid and his tile is a pellet that is not destroyed, that
    tile becomes [empty] and destroyed, every other tile is as it was, the
    score goes up by exactly 10 and the pellet counter down by exactly 1;
    in every other case the pass changes nothing beyond the engine tick.
    What the pass leaves does not meet the conditions of an eat, so the same
    pellet is not credited again. *)
Theorem pellet_eat_spec g g' :
  loop_body g = BodyNext g' ->
  (if eat_conditions (loopFunction (engine g))
   then eat_effect (loopFunction (engine g)) g g'
   else g' = ticked g) /\
  eat_conditions (engine g') = false /\
  pellet_step g' = Ok g'.
Proof.
  intros Hbody. apply loop_body_next in Hbody as [_ Hstep].
  apply pellet_step_spec in Hstep. exact Hstep.
Qed.

(** A pass that falls off the end of the body leaves the time budget, the
    lives, the level, the flag and [state] as they were: nothing takes
    [engine_dt] off [engine_accum], and [_advance_level] is not called. *)
Lemma loop_body_next_frame g g' :
  loop_body g = BodyNext g' ->
  engine_accum g' = engine_accum g /\ lives g' = lives g /\
  level g' = level g /\ game_over g' = game_over g /\ state g' = state g.
Proof.
  intros Hbody. apply loop_body_next in Hbody as [_ Hstep].
  apply pellet_step_spec in Hstep as [Heat _]. cbn [ticked set_engine engine] in Heat.
  destruct (eat_conditions (loopFunction (engine g))).
  - unfold eat_effect in Heat. intuition.
  - subst g'. repeat split.
Qed.

(** So the loop test, once true, stays true after such a pass: [steps] is
    a local that the body never assigns. *)
Lemma loop_test_stable g g' (steps : Z) :
  loop_body g = BodyNext g' -> loop_test g' steps = loop_test g steps.
Proof.
  intros Hbody. apply loop_body_next_frame in Hbody as [Hacc _].
  unfold loop_test. rewrite Hacc. reflexivity.
Qed.

(** Once entered, the loop is left only by the [return] after a collision
    or by an exception. *)
Lemma update_loop_exit (n : nat) g (steps : Z) g' :
  loop_test g steps = true ->
  update_loop n g steps = Returned g' ->
  exists g0 : Game Hidden, g' = (_lose_life g0).2 /\ lives g0 = lives g /\
    game_over g0 = game_over g /\ level g0 = level g.
Proof.
  revert g. induction n as [| n IH]; intros g Htest Hloop.
  - cbn in Hloop. rewrite Htest in Hloop. discriminate.
  - cbn [update_loop] in Hloop. rewrite Htest in Hloop.
    destruct (loop_body g) as [g1 | g1 | ex] eqn:Hbody.
    + pose proof (loop_body_next_frame _ _ Hbody) as (_ & Hl & Hlv & Hgo & _).
      rewrite <- (loop_test_stable _ _ steps Hbody) in Htest.
      destruct (IH g1 Htest Hloop) as (g0 & -> & Hl0 & Hgo0 & Hlv0).
      exists g0. repeat split; congruence.
    + apply loop_body_return in Hbody. inversion Hloop; subst g'.
      exists (ticked g). repeat split. exact Hbody.
    + discriminate.
Qed.

End UpdateLoop.

Lemma pellet_eat_spec_witness :
  (loop_body (quiet_session 50 last_pellet_grid 1 0 0.5 0)
     = BodyNext (quiet_session 60 cleared_grid 0 1 0.5 0) /\
   eat_conditions
     (loopFunction (engine (quiet_session 50 last_pellet_grid 1 0 0.5 0)))
     = true) /\
  ((if eat_conditions
         (loopFunction (engine (quiet_session 50 last_pellet_grid 1 0 0.5 0)))
    then eat_effect
           (loopFunction (engine (quiet_session 50 last_pellet_grid 1 0 0.5 0)))
           (quiet_session 50 last_pellet_grid 1 0 0.5 0)
           (quiet_session 60 cleared_grid 0 1 0.5 0)
    else quiet_session 60 cleared_grid 0 1 0.5 0
         = ticked (quiet_session 50 last_pellet_grid 1 0 0.5 0)) /\
   eat_conditions (engine (quiet_session 60 cleared_grid 0 1 0.5 0)) = false /\
   pellet_step (quiet_session 60 cleared_grid 0 1 0.5 0)
     = Ok (quiet_session 60 cleared_grid 0 1 0.5 0)).
Proof.
  split; [split; reflexivity |].
  apply (pellet_eat_spec (quiet_session 50 last_pellet_grid 1 0 0.5 0)
           (quiet_session 60 cleared_grid 0 1 0.5 0)).
  reflexivity.
Defined.

(** C6, on the code.  A tick with no collision in which no eat is credited:
    Fitz-Man stands on the centre of tile (1,1), inside the grid, on a pellet
    that is not destroyed, and the only ghost, active and not caged, is at
    (40,40), 36 away on both axes, before and after the tick.  The three
    conditions of an eat hold, and pellet handling on the ticked session
    would credit it (score 60, the tile [empty] and destroyed, no pellet
    left).  It is never reached: the collision check raises
    [AttributeError] at the missing [_wrap_dist], and so do the pass and
    every call of [update] that enters the loop. *)
Theorem pellet_eat_blocked_by_free_ghost :
  eat_conditions (loopFunction (engine (far_ghost_session 0.5))) = true /\
  movingObjectPacman (engine (ticked (far_ghost_session 0.5)))
    = movingObjectPacman (engine (far_ghost_session 0.5)) /\
  movingObjectGhosts (engine (ticked (far_ghost_session 0.5)))
    = [mover (40, 40) (10, 10) true false] /\
  wrapDistance 4 40 W_ABS = 36 /\ _dist_y 4 40 = 36 /\
  overlapping (4, 4) (40, 40) = false /\
  pellet_step (ticked (far_ghost_session 0.5))
    = Ok (session 60 2 1 false
            (board (mover (4, 4) (1, 1) true false)
                   [mover (40, 40) (10, 10) true false] cleared_grid 0 1)
            0.5 0 PLAY) /\
  _check_ghost_collision (ticked (far_ghost_session 0.5)) (4, 4) [(40, 40)]
    = Raise AttributeError /\
  loop_body (far_ghost_session 0.5) = BodyRaise AttributeError /\
  forall n : nat,
    update (S n) (far_ghost_session 0) engine_dt = Raised AttributeError.
Proof. repeat split; reflexivity. Qed.

(** With nothing to eat under Fitz-Man and the ghost caged, a pass only
    ticks the engine, and the loop test holds again after it. *)
Lemma quiet_loop (sc : Z) (grid : list (list LevelObject)) (pellets : Z)
    (acc anim : float) (n : nat) :
  (forall k : nat,
     loop_test (quiet_session sc grid pellets k acc anim) 0 = true) ->
  (forall k : nat,
     loop_body (quiet_session sc grid pellets k acc anim)
       = BodyNext (quiet_session sc grid pellets (S k) acc anim)) ->
  forall k : nat,
    update_loop n (quiet_session sc grid pellets k acc anim) 0
      = StillLooping (quiet_session sc grid pellets (n + k) acc anim) 0.
Proof.
  intros Htest Hbody. induction n as [| n IH]; intros k.
  - cbn [update_loop]. rewrite Htest. reflexivity.
  - cbn [update_loop]. rewrite Htest, Hbody, IH.
    do 2 f_equal. lia.
Qed.

(** C2, on the code.  Fitz-Man eats the last pellet in the first pass of a
    call of [update]: the pellet counter is 0 after pellet handling.  No
    level advance follows.  However many passes are followed, the session
    is still at level 1 with the same engine (its counter at 0, its ticks
    counting on) and the time budget is what it was, where
    [_advance_level] would have left level 2, a fresh engine with pellets
    to eat and a budget of 0.0. *)
Theorem level_clear_does_not_advance :
  loop_body (quiet_session 50 last_pellet_grid 1 0 0.5 0)
    = BodyNext (quiet_session 60 cleared_grid 0 1 0.5 0) /\
  (forall n : nat,
     update (S n) (quiet_session 50 last_pellet_grid 1 0 0 0) engine_dt
       = StillLooping
           (quiet_session 60 cleared_grid 0 (S n) (0 + engine_dt)
              (0 + engine_dt)) 0 /\
     level (quiet_session 60 cleared_grid 0 (S n) (0 + engine_dt)
              (0 + engine_dt)) = 1 /\
     levelPelletRemaining
       (engine (quiet_session 60 cleared_grid 0 (S n) (0 + engine_dt)
                  (0 + engine_dt))) = 0) /\
  level (_advance_level (quiet_session 60 cleared_grid 0 1 0.5 0)) = 2 /\
  levelPelletRemaining
    (engine (_advance_level (quiet_session 60 cleared_grid 0 1 0.5 0))) = 2 /\
  engine_accum (_advance_level (quiet_session 60 cleared_grid 0 1 0.5 0))
    = 0%float.
Proof.
  split; [reflexivity |]. split; [| repeat split].
  intros n. split; [| split; reflexivity].
  change (update (S n) (quiet_session 50 last_pellet_grid 1 0 0 0) engine_dt)
    with (update_loop n
            (quiet_session 60 cleared_grid 0 1 (0 + engine_dt) (0 + engine_dt))
            0).
  rewrite quiet_loop by (intros k; reflexivity).
  do 2 f_equal. lia.
Qed.

(** C7, on the code.  A call of [update] in the PLAY state with an empty
    budget and a delta of ten tick durations (1.0 s) does not stop after
    5 ticks: after any number [n] of passes the engine has ticked [n]
    times, the local [steps] is still 0, the budget is still the whole
    1.0 s, and the loop goes on. *)
Theorem tick_cap_not_enforced :
  (10 * engine_dt)%float = 1%float /\
  max_steps = 5 /\
  forall n : nat,
    update n (quiet_session 0 far_pellet_grid 2 0 0 0) (10 * engine_dt)
      = StillLooping (quiet_session 0 far_pellet_grid 2 n 1 1) 0 /\
    engine_hidden (engine (quiet_session 0 far_pellet_grid 2 n 1 1)) = n /\
    engine_accum (quiet_session 0 far_pellet_grid 2 n 1 1) = 1%float.
Proof.
  split; [reflexivity |]. split; [reflexivity |].
  intros n. split; [| split; reflexivity].
  change (update n (quiet_session 0 far_pellet_grid 2 0 0 0) (10 * engine_dt))
    with (update_loop n (quiet_session 0 far_pellet_grid 2 0 1 1) 0).
  rewrite quiet_loop by (intros k; reflexivity).
  do 2 f_equal. lia.
Qed.

(** ** Properties of the state machine *)

Section Machine.
Context {Hidden : Type} `{!EngineAPI Hidden} `{!HostAPI}.

Implicit Types (g : Game Hidden) (e : Event).

(** C8.  Restart.  From game over, a press of Enter or Space, a mouse
    button press or release, or a finger press, on an event as pygame
    delivers it, resets the score to 0, the lives to 2, the level to 1 and
    the game-over flag to false, installs a fresh engine generated for
    level 1 with Fitz-Man active, empties the time budget, and sets [state]
    to TITLE. *)
Theorem restart_spec g e :
  game_over g = true ->
  delivered e = true ->
  restart_input e = true ->
  handle_event g e =
    Ok {| score := 0; lives := 2; level := 1; game_over := false;
          engine := activate_pacman (levelGenerate GameEngine_new 1);
          engine_accum := 0%float; state := TITLE; _anim_t := _anim_t g |} /\
  isActive
    (movingObjectPacman (activate_pacman (levelGenerate GameEngine_new 1)))
    = true.
Proof.
  intros Hover Hdel Htrig. split; [| reflexivity].
  unfold handle_event. rewrite Hover.
  destruct e as [t k p x y]. unfold restart_input in Htrig.
  unfold delivered in Hdel.
  destruct t; cbn in Htrig, Hdel; try discriminate.
  - (* KEYDOWN *)
    destruct k as [[] |]; try discriminate; reflexivity.
  - (* MOUSEBUTTONDOWN *)
    destruct p; try discriminate; reflexivity.
  - (* MOUSEBUTTONUP *)
    destruct p; try discriminate; reflexivity.
  - (* FINGERDOWN *)
    reflexivity.
Qed.

End Machine.

Lemma restart_spec_witness :
  (game_over over_session = true /\
   delivered (mouse_event MOUSEBUTTONUP (Some (10, 10))) = true /\
   restart_input (mouse_event MOUSEBUTTONUP (Some (10, 10))) = true) /\
  handle_event over_session (mouse_event MOUSEBUTTONUP (Some (10, 10))) =
    Ok {| score := 0; lives := 2; level := 1; game_over := false;
          engine := activate_pacman (levelGenerate GameEngine_new 1);
          engine_accum := 0%float; state := TITLE;
          _anim_t := _anim_t over_session |} /\
  isActive
    (movingObjectPacman (activate_pacman (levelGenerate GameEngine_new 1)))
    = true.
Proof.
  split; [repeat split; reflexivity |].
  apply (restart_spec over_session (mouse_event MOUSEBUTTONUP (Some (10, 10))));
    reflexivity.
Defined.

(** ** The bound on lives *)

Section Invariant.
Context {Hidden : Type} `{!EngineAPI Hidden} `{!HostAPI}.

Implicit Types (g : Game Hidden) (e : Event).

Lemma KEY_TO_DIR_range (k : keycode) (d : string) :
  KEY_TO_DIR k = Some d ->
  k <> K_ESCAPE /\ In d ["Left"; "Right"; "Up"; "Down"]%string.
Proof.
  destruct k; cbn; intros [= <-]; split; try discriminate; auto 6.
Qed.

Lemma dir_for_pos_range (p : Z * Z) (d : string) :
  dir_for_pos p = Ok (Some d) ->
  In d ["Left"; "Right"; "Up"; "Down"]%string.
Proof.
  unfold dir_for_pos.
  repeat match goal with
         | |- context [bind (collidepoint ?r p) _] =>
             destruct (collidepoint r p) as [[|] | ?]; cbn [bind]
         end; intros [= <-]; cbn; auto 6.
Qed.

(** The shapes of a session that [handle_event] returns, and the branch
    each comes from. *)
Lemma handle_event_shapes g e g' :
  handle_event g e = Ok g' ->
  g' = g \/
  (game_over g = true /\ g' = set_state (reset_game g) TITLE) \/
  (game_over g = false /\ state g = TITLE /\ g' = set_state g PLAY) \/
  (game_over g = false /\ state g <> TITLE /\
   exists d : string,
     In d ["Left"; "Right"; "Up"; "Down"]%string /\
     g' = set_engine g (set_dirNext (engine g) d)).
Proof.
  unfold handle_event, restart.
  destruct (keydown_in e [K_ESCAPE]) as [[|] | ex0]; cbn [bind];
    try discriminate.
  destruct (game_over g) eqn:Hover.
  - destruct (keydown_in e [K_RETURN; K_SPACE]) as [[|] | ex0]; cbn [bind];
      try discriminate.
    + intros [= <-]. auto.
    + destruct (is_mouse_button e && hasattr_pos e); [intros [= <-]; auto |].
      destruct (bool_decide (etype e = FINGERDOWN)); intros [= <-]; auto.
  - destruct (bool_decide (state g = TITLE)) eqn:Hstate.
    + apply bool_decide_eq_true in Hstate.
      destruct (keydown_in e [K_RETURN; K_SPACE]) as [[|] | ex0]; cbn [bind];
        try discriminate.
      * intros [= <-]. auto 6.
      * destruct (is_mouse_button e).
        -- destruct (epos e) as [p |]; [| intros [= <-]; auto].
           destruct (collidepoint start_btn p) as [[|] | ex0]; cbn [bind];
             try discriminate; intros [= <-]; auto 6.
        -- destruct (bool_decide (etype e = FINGERDOWN));
             [| intros [= <-]; auto].
           destruct (getattr (ex e)) as [fx | ex1]; cbn [bind];
             try discriminate.
           destruct (py_int (fx * 540)%float) as [mx | ex2]; cbn [bind];
             try discriminate.
           destruct (getattr (ey e)) as [fy | ex3]; cbn [bind];
             try discriminate.
           destruct (py_int (fy * 820)%float) as [my | ex4]; cbn [bind];
             try discriminate.
           destruct (collidepoint start_btn (mx, my)) as [[|] | ex5];
             cbn [bind]; try discriminate; intros [= <-]; auto 6.
    + apply bool_decide_eq_false in Hstate.
      destruct (bool_decide (etype e = KEYDOWN)) eqn:Hkey.
      * apply bool_decide_eq_true in Hkey. rewrite Hkey.
        change (bool_decide (KEYDOWN = MOUSEBUTTONDOWN)) with false.
        destruct (getattr (ekey e)) as [k | ex1]; cbn [bind];
          try discriminate.
        destruct (KEY_TO_DIR k) as [d |] eqn:Hd; cbn [bind];
          intros [= <-]; [| auto].
        apply KEY_TO_DIR_range in Hd as [_ Hin]. right; right; right. eauto.
      * cbn [bind].
        destruct (bool_decide (etype e = MOUSEBUTTONDOWN));
          [| intros [= <-]; auto].
        destruct (getattr (epos e)) as [p | ex1]; cbn [bind];
          try discriminate.
        destruct (dir_for_pos p) as [[d |] | ex2] eqn:Hd; cbn [bind];
          try discriminate; intros [= <-]; [| auto].
        apply dir_for_pos_range in Hd. right; right; right. eauto.
Qed.

(** [handle_event] leaves lives and flag alone, except for the restart. *)
Lemma handle_event_lives g e g' :
  handle_event g e = Ok g' ->
  (lives g' = lives g /\ game_over g' = game_over g) \/
  (game_over g = true /\ lives g' = 2 /\ game_over g' = false).
Proof.
  intros Hev.
  destruct (handle_event_shapes _ _ _ Hev)
    as [-> | [[Hover ->] | [(_ & _ & ->) | (_ & _ & d & _ & ->)]]]; cbn; auto.
Qed.

(** What the loop can do to lives and flag: nothing, or one life-loss. *)
Lemma update_loop_lives (n : nat) g (steps : Z) :
  match update_loop n g steps with
  | Returned g' =>
      (lives g' = lives g /\ game_over g' = game_over g) \/
      (lives g' = lives g - 1 /\
       (game_over g' = true \/
        game_over g' = game_over g /\ 0 <= lives g - 1))
  | StillLooping g' _ => lives g' = lives g /\ game_over g' = game_over g
  | Raised _ => True
  end.
Proof.
  revert g. induction n as [| n IH]; intros g; cbn [update_loop].
  - destruct (loop_test g steps); auto.
  - destruct (loop_test g steps); [| auto].
    destruct (loop_body g) as [g1 | g1 | ex] eqn:Hbody; [| | exact I].
    + pose proof (loop_body_next_frame _ _ Hbody) as (_ & Hl & _ & Hgo & _).
      specialize (IH g1). rewrite Hl, Hgo in IH. exact IH.
    + apply loop_body_return in Hbody. subst g1. right.
      pose proof (lose_life_frame (ticked g)) as (Hl & _ & _ & _ & Hgo).
      split; [exact Hl | exact Hgo].
Qed.

(** [update] does nothing once the game-over flag is set. *)
Lemma update_game_over_noop (n : nat) g (dt : float) :
  game_over g = true -> update n g dt = Returned g.
Proof. intros Hover. unfold update. rewrite Hover. reflexivity. Qed.

(** [update] does nothing outside the PLAY state. *)
Lemma update_not_play_noop (n : nat) g (dt : float) :
  state g <> PLAY -> update n g dt = Returned g.
Proof.
  intros Hst. unfold update.
  rewrite (bool_decide_eq_false_2 _ Hst), orb_true_r. reflexivity.
Qed.

Lemma update_lives (n : nat) g (dt : float) :
  match update n g dt with
  | Returned g' =>
      (lives g' = lives g /\ game_over g' = game_over g) \/
      (game_over g = false /\ lives g' = lives g - 1 /\
       (game_over g' = true \/ game_over g' = false /\ 0 <= lives g - 1))
  | StillLooping g' _ => lives g' = lives g /\ game_over g' = game_over g
  | Raised _ => True
  end.
Proof.
  unfold update. destruct (game_over g) eqn:Hover; cbn [orb]; [auto |].
  destruct (negb (bool_decide (state g = PLAY))); [auto |].
  match goal with
  | |- context [update_loop n ?g1 0] =>
      pose proof (update_loop_lives n g1 0) as Hloop;
      destruct (update_loop n g1 0)
  end; cbn [lives game_over] in Hloop; [| exact I | exact Hloop].
  destruct Hloop as [Hsame | [Hl Hgo]]; [left; exact Hsame | right].
  split; [reflexivity |]. split; [exact Hl | exact Hgo].
Qed.

(** Every step changes lives by nothing, by one life lost inside [update]
    while the flag was clear, or by the restart from game over. *)
Lemma step_lives g g' :
  step g g' ->
  (lives g' = lives g /\ game_over g' = game_over g) \/
  (game_over g = false /\ lives g' = lives g - 1 /\
   (game_over g' = true \/ game_over g' = false /\ 0 <= lives g - 1) /\
   exists (n : nat) (dt : float), update n g dt = Returned g') \/
  (game_over g = true /\ lives g' = 2 /\ game_over g' = false).
Proof.
  intros [g0 e g1 Hev | g0 dt n g1 Hup | g0 dt n g1 steps Hup].
  - destruct (handle_event_lives _ _ _ Hev) as [Hsame | Hrestart]; auto.
  - pose proof (update_lives n g0 dt) as Hl. rewrite Hup in Hl.
    destruct Hl as [Hsame | (Hgo & Hl & Hgo')]; [auto |].
    right; left. repeat split; try assumption. exists n, dt. exact Hup.
  - pose proof (update_lives n g0 dt) as Hl. rewrite Hup in Hl. auto.
Qed.

Lemma step_lives_ok g g' : step g g' -> lives_ok g -> lives_ok g'.
Proof.
  intros Hstep [Hlow Hplay].
  destruct (step_lives _ _ Hstep)
    as [[Hl Hgo] | [(Hgo & Hl & Hgo' & _) | (Hgo & Hl & Hgo')]];
    unfold lives_ok.
  - rewrite Hl, Hgo. auto.
  - specialize (Hplay Hgo). destruct Hgo' as [Hgo' | [Hgo' Hpos]].
    + rewrite Hgo'. split; [lia | discriminate].
    + split; [lia | intros _; lia].
  - rewrite Hl. split; [lia | intros _; lia].
Qed.

Lemma reachable_lives_ok g : reachable g -> lives_ok g.
Proof.
  induction 1 as [| g g' _ IH Hstep].
  - split; cbn; [lia | intros _; lia].
  - exact (step_lives_ok _ _ Hstep IH).
Qed.

(** C10.  In every session the program can be in, lives are at least -1,
    and they are negative only with the game-over flag set.  From such a
    session a step leaves lives as they were, or takes exactly one life
    inside a call of [update] made while the flag was clear, or is the
    restart that puts them back to 2; and while the flag is set, [update]
    returns at once with the session untouched. *)
Theorem lives_never_below_minus_one g :
  reachable g ->
  -1 <= lives g /\
  (lives g < 0 -> game_over g = true) /\
  (forall g' : Game Hidden,
     step g g' ->
     lives g' = lives g \/
     (game_over g = false /\ lives g' = lives g - 1 /\
      exists (n : nat) (dt : float), update n g dt = Returned g') \/
     (game_over g = true /\ lives g' = 2)) /\
  (game_over g = true ->
   forall (n : nat) (dt : float), update n g dt = Returned g).
Proof.
  intros Hreach. destruct (reachable_lives_ok g Hreach) as [Hlow Hplay].
  split; [exact Hlow |]. split; [| split].
  - intros Hneg. destruct (game_over g); [reflexivity |].
    specialize (Hplay eq_refl). lia.
  - intros g' Hstep.
    destruct (step_lives _ _ Hstep)
      as [[Hl _] | [(Hgo & Hl & _ & Hup) | (Hgo & Hl & _)]]; auto.
  - intros Hover n dt. apply update_game_over_noop. exact Hover.
Qed.

End Invariant.

Lemma lives_never_below_minus_one_witness :
  reachable demo_over /\
  (-1 <= lives demo_over /\
   (lives demo_over < 0 -> game_over demo_over = true) /\
   (forall g' : Game nat,
      step demo_over g' ->
      lives g' = lives demo_over \/
      (game_over demo_over = false /\ lives g' = lives demo_over - 1 /\
       exists (n : nat) (dt : float), update n demo_over dt = Returned g') \/
      (game_over demo_over = true /\ lives g' = 2)) /\
   (game_over demo_over = true ->
    forall (n : nat) (dt : float), update n demo_over dt = Returned demo_over)).
Proof.
  assert (Hplay : reachable (demo_life 2 0%float)).
  { apply reach_step with (g := Game_init); [apply reach_init |].
    apply step_event with (e := key_event K_RETURN). reflexivity. }
  assert (Hone : reachable (demo_life 1 (0 + engine_dt)%float)).
  { apply reach_step with (g := demo_life 2 0%float); [exact Hplay |].
    apply step_update with (dt := engine_dt) (passes := 1%nat). reflexivity. }
  assert (Hzero : reachable (demo_life 0 (0 + engine_dt + engine_dt)%float)).
  { apply reach_step with (g := demo_life 1 (0 + engine_dt)%float);
      [exact Hone |].
    apply step_update with (dt := engine_dt) (passes := 1%nat). reflexivity. }
  assert (Hover : reachable demo_over).
  { apply reach_step with (g := demo_life 0 (0 + engine_dt + engine_dt)%float);
      [exact Hzero |].
    apply step_update with (dt := engine_dt) (passes := 1%nat). reflexivity. }
  split; [exact Hover |].
  exact (lives_never_below_minus_one demo_over Hover).
Defined.

(** ** More on the distance helpers *)

Lemma mod_diff (a b p : Z) :
  0 < p ->
  (a - b) mod p =
    if b mod p <=? a mod p then a mod p - b mod p
    else a mod p - b mod p + p.
Proof.
  intros Hp. rewrite Zminus_mod.
  pose proof (Z.mod_pos_bound a p Hp) as Ha.
  pose proof (Z.mod_pos_bound b p Hp) as Hb.
  destruct (Z.leb_spec (b mod p) (a mod p)).
  - apply Z.mod_small. lia.
  - symmetry. apply Z.mod_unique with (q := -1); lia.
Qed.

(** The wrap distance read off the residue of [a - b]. *)
Lemma wrapDistance_residue (a b p : Z) :
  0 < p ->
  wrapDistance a b p = Z.min ((a - b) mod p) (p - (a - b) mod p).
Proof.
  intros Hp. unfold wrapDistance. rewrite mod_diff by assumption.
  pose proof (Z.mod_pos_bound a p Hp) as Ha.
  pose proof (Z.mod_pos_bound b p Hp) as Hb.
  destruct (Z.leb_spec (b mod p) (a mod p)); lia.
Qed.

Lemma signed_delta_value (a b p : Z) :
  p <> 0 -> signed_delta a b p = Ok (signedDelta a b p).
Proof.
  intros Hp. unfold signed_delta, signedDelta.
  rewrite !py_mod_nonzero by assumption. cbn [bind].
  rewrite py_mod_nonzero by assumption. cbn [bind].
  rewrite <- Zminus_mod. reflexivity.
Qed.

(** X1.  For a period [p > 0] the signed delta and the wrap distance agree:
    both helpers return, the absolute value of the signed delta is the wrap
    distance, so one is zero exactly when the other is, and the signed delta
    lies in the half-open range from [-p/2] (excluded) to [p/2]
    (included). *)
Theorem signed_delta_magnitude (a b p : Z) :
  0 < p ->
  exists s d : Z,
    signed_delta a b p = Ok s /\ _wrap_dist_x a b p = Ok d /\
    Z.abs s = d /\ (s = 0 <-> d = 0) /\ - p < 2 * s <= p.
Proof.
  intros Hp. exists (signedDelta a b p), (wrapDistance a b p).
  split; [apply signed_delta_value; lia |].
  split; [apply wrap_dist_x_value; lia |].
  rewrite wrapDistance_residue by assumption. unfold signedDelta.
  pose proof (Z.mod_pos_bound (a - b) p Hp) as Hd.
  pose proof (Z.div_mod p 2 ltac:(lia)) as Hhalf.
  pose proof (Z.mod_pos_bound p 2 ltac:(lia)) as Hrem.
  destruct (Z.ltb_spec (p / 2) ((a - b) mod p)); lia.
Qed.

Lemma signed_delta_magnitude_witness :
  exists s d : Z,
    signed_delta 1 111 112 = Ok s /\ _wrap_dist_x 1 111 112 = Ok d /\
    Z.abs s = d /\ (s = 0 <-> d = 0) /\ - 112 < 2 * s <= 112.
Proof. apply (signed_delta_magnitude 1 111 112). lia. Defined.

Lemma mod_opp_diff (a b p : Z) :
  0 < p ->
  (b - a) mod p = if (a - b) mod p =? 0 then 0 else p - (a - b) mod p.
Proof.
  intros Hp. rewrite (mod_diff b a), (mod_diff a b) by assumption.
  pose proof (Z.mod_pos_bound a p Hp) as Ha.
  pose proof (Z.mod_pos_bound b p Hp) as Hb.
  destruct (Z.leb_spec (a mod p) (b mod p)),
           (Z.leb_spec (b mod p) (a mod p));
    match goal with
    | |- context [?x =? 0] => destruct (Z.eqb_spec x 0)
    end; lia.
Qed.

(** X2.  Exchanging the two points negates the signed delta, except when
    they are exactly half a period apart, where both orders give [p/2]. *)
Theorem signed_delta_antisymmetric (a b p : Z) :
  0 < p ->
  exists s t : Z,
    signed_delta a b p = Ok s /\ signed_delta b a p = Ok t /\
    (t = - s \/ (t = s /\ 2 * s = p)).
Proof.
  intros Hp. exists (signedDelta a b p), (signedDelta b a p).
  split; [apply signed_delta_value; lia |].
  split; [apply signed_delta_value; lia |].
  unfold signedDelta. rewrite (mod_opp_diff a b) by assumption.
  pose proof (Z.mod_pos_bound (a - b) p Hp) as Hd.
  pose proof (Z.div_mod p 2 ltac:(lia)) as Hhalf.
  pose proof (Z.mod_pos_bound p 2 ltac:(lia)) as Hrem.
  destruct (Z.eqb_spec ((a - b) mod p) 0) as [Hz | Hnz].
  - rewrite Hz. destruct (Z.ltb_spec (p / 2) 0); lia.
  - destruct (Z.ltb_spec (p / 2) ((a - b) mod p)),
             (Z.ltb_spec (p / 2) (p - (a - b) mod p)); lia.
Qed.

Lemma signed_delta_antisymmetric_witness :
  exists s t : Z,
    signed_delta 0 4 112 = Ok s /\ signed_delta 4 0 112 = Ok t /\
    (t = - s \/ (t = s /\ 2 * s = 112)).
Proof. apply (signed_delta_antisymmetric 0 4 112). lia. Defined.

(** X3.  For a period [p > 0] the wrap distance is zero exactly when the
    two points are congruent modulo [p], and it does not change when both
    points are shifted by the same amount or either by whole periods. *)
Theorem wrap_dist_x_ring (a b c k p : Z) :
  0 < p ->
  (_wrap_dist_x a b p = Ok 0 <-> a mod p = b mod p) /\
  _wrap_dist_x (a + c) (b + c) p = _wrap_dist_x a b p /\
  _wrap_dist_x (a + k * p) b p = _wrap_dist_x a b p /\
  _wrap_dist_x a (b + k * p) p = _wrap_dist_x a b p.
Proof.
  intros Hp. rewrite !wrap_dist_x_value by lia.
  pose proof (Z.mod_pos_bound a p Hp) as Ha.
  pose proof (Z.mod_pos_bound b p Hp) as Hb.
  split; [| split; [| split]].
  - unfold wrapDistance. split.
    + intros [= H0]. lia.
    + intros Heq. f_equal. lia.
  - f_equal. rewrite !wrapDistance_residue by assumption.
    replace (a + c - (b + c)) with (a - b) by lia. reflexivity.
  - f_equal. unfold wrapDistance. rewrite Z_mod_plus_full. reflexivity.
  - f_equal. unfold wrapDistance. rewrite Z_mod_plus_full. reflexivity.
Qed.

Lemma wrap_dist_x_ring_witness :
  (_wrap_dist_x 1 113 112 = Ok 0 <-> 1 mod 112 = 113 mod 112) /\
  _wrap_dist_x (1 + 5) (113 + 5) 112 = _wrap_dist_x 1 113 112 /\
  _wrap_dist_x (1 + 3 * 112) 113 112 = _wrap_dist_x 1 113 112 /\
  _wrap_dist_x 1 (113 + 3 * 112) 112 = _wrap_dist_x 1 113 112.
Proof. apply (wrap_dist_x_ring 1 113 5 3 112). lia. Defined.

(** X4.  The wrap distance obeys the triangle inequality, and it never
    exceeds the plain distance [|a - b|]. *)
Theorem wrap_dist_x_triangle (a b c p : Z) :
  0 < p ->
  exists dab dbc dac : Z,
    _wrap_dist_x a b p = Ok dab /\ _wrap_dist_x b c p = Ok dbc /\
    _wrap_dist_x a c p = Ok dac /\
    dac <= dab + dbc /\ dab <= _dist_y a b.
Proof.
  intros Hp.
  exists (wrapDistance a b p), (wrapDistance b c p), (wrapDistance a c p).
  rewrite !wrap_dist_x_value by lia. repeat split; try reflexivity.
  - unfold wrapDistance.
    pose proof (Z.mod_pos_bound a p Hp) as Ha.
    pose proof (Z.mod_pos_bound b p Hp) as Hb.
    pose proof (Z.mod_pos_bound c p Hp) as Hc.
    lia.
  - unfold _dist_y. destruct (Z.le_gt_cases b a) as [Hle | Hgt].
    + rewrite wrapDistance_residue by assumption.
      pose proof (Z.mod_le (a - b) p ltac:(lia) Hp). lia.
    + rewrite wrapDistance_sym, wrapDistance_residue by assumption.
      pose proof (Z.mod_le (b - a) p ltac:(lia) Hp). lia.
Qed.

Lemma wrap_dist_x_triangle_witness :
  exists dab dbc dac : Z,
    _wrap_dist_x 2 110 112 = Ok dab /\ _wrap_dist_x 110 50 112 = Ok dbc /\
    _wrap_dist_x 2 50 112 = Ok dac /\
    dac <= dab + dbc /\ dab <= _dist_y 2 110.
Proof. apply (wrap_dist_x_triangle 2 110 50 112). lia. Defined.

(** X5.  The helpers outside their domain: with period 0 both raise
    [ZeroDivisionError]; with a negative period [_wrap_dist_x] does not
    raise but returns a negative number, at most [p] and above [2 * p],
    whatever the two points are. *)
Theorem wrap_dist_x_bad_period (a b p : Z) :
  p <= 0 ->
  (p = 0 /\ _wrap_dist_x a b p = Raise ZeroDivisionError /\
   signed_delta a b p = Raise ZeroDivisionError) \/
  (p < 0 /\ exists d : Z, _wrap_dist_x a b p = Ok d /\ 2 * p < d <= p).
Proof.
  intros Hp. destruct (Z.eq_dec p 0) as [-> | Hnz].
  - left. repeat split.
  - right. split; [lia |]. exists (wrapDistance a b p).
    split; [apply wrap_dist_x_value; assumption |].
    unfold wrapDistance.
    pose proof (Z.mod_neg_bound a p ltac:(lia)) as Ha.
    pose proof (Z.mod_neg_bound b p ltac:(lia)) as Hb.
    lia.
Qed.

Lemma wrap_dist_x_bad_period_witness :
  (-112 = 0 /\ _wrap_dist_x 3 9 (-112) = Raise ZeroDivisionError /\
   signed_delta 3 9 (-112) = Raise ZeroDivisionError) \/
  (-112 < 0 /\
   exists d : Z, _wrap_dist_x 3 9 (-112) = Ok d /\ 2 * -112 < d <= -112).
Proof. apply (wrap_dist_x_bad_period 3 9 (-112)). lia. Defined.

(** ** More on the collision check *)

Section CollisionMore.
Context {Hidden : Type} `{!EngineAPI Hidden} `{!HostAPI}.

Implicit Types (g : Game Hidden) (gh : MovingObject).

(** X6.  Ghosts that are inactive or caged are ignored: when every ghost
    is one or the other, the check returns [False] and the session is the
    one it was given, whatever is passed as the previous sample (an empty
    list included). *)
Theorem check_ignores_idle_ghosts g (pac_prev : Z * Z) (gp : list (Z * Z)) :
  forallb skipped (movingObjectGhosts (engine g)) = true ->
  _check_ghost_collision g pac_prev gp = Ok (false, g).
Proof.
  intros Hall. unfold _check_ghost_collision.
  rewrite <- (app_nil_r (movingObjectGhosts (engine g))).
  rewrite check_ghosts_from_skip by assumption. reflexivity.
Qed.

(** X7.  When the first ghost that is neither inactive nor caged stands at
    an index that [ghosts_prev_abs] does not have, the check raises
    [IndexError], before any distance is computed. *)
Theorem check_missing_previous g (pac_prev : Z * Z) (gp : list (Z * Z))
    (pre : list MovingObject) gh (rest : list MovingObject) :
  movingObjectGhosts (engine g) = pre ++ gh :: rest ->
  forallb skipped pre = true ->
  skipped gh = false ->
  (length gp <= length pre)%nat ->
  _check_ghost_collision g pac_prev gp = Raise IndexError.
Proof.
  intros Hghosts Hpre Hgh Hshort. unfold _check_ghost_collision.
  rewrite Hghosts, check_ghosts_from_skip by assumption.
  cbn [check_ghosts_from]. rewrite check_ghost_eq, Hgh.
  rewrite (lookup_ge_None_2 gp (0 + length pre)) by lia. reflexivity.
Qed.

(** X8.  What the check leaves alone: whenever it returns, with either
    answer, the score, the level, [state] and the animation clock are as
    before, and lives are as before or exactly one lower. *)
Theorem check_collision_frame g (pac_prev : Z * Z) (gp : list (Z * Z))
    (b : bool) (g' : Game Hidden) :
  _check_ghost_collision g pac_prev gp = Ok (b, g') ->
  score g' = score g /\ level g' = level g /\ state g' = state g /\
  _anim_t g' = _anim_t g /\
  (lives g' = lives g \/ lives g' = lives g - 1).
Proof.
  intros Hret.
  destruct (check_collision_cases g pac_prev gp) as [Hc | [Hc | [ex0 Hc]]];
    rewrite Hc in Hret; try discriminate.
  - injection Hret as <- <-. auto 6.
  - unfold _lose_life in Hret.
    destruct (lives g - 1 <? 0); injection Hret as <- <-; cbn; auto 6.
Qed.

End CollisionMore.

Lemma check_missing_previous_witness :
  (movingObjectGhosts (engine swap_session)
     = [] ++ mover (0, 0) (0, 0) true false :: [] /\
   forallb skipped [] = true /\
   skipped (mover (0, 0) (0, 0) true false) = false /\
   (length (@nil (Z * Z)) <= length (@nil MovingObject))%nat) /\
  _check_ghost_collision swap_session (0, 0) [] = Raise IndexError.
Proof.
  split; [repeat split; reflexivity |].
  apply (check_missing_previous swap_session (0, 0) [] []
           (mover (0, 0) (0, 0) true false) []); reflexivity.
Defined.

Lemma check_ignores_idle_ghosts_witness :
  forallb skipped
    (movingObjectGhosts (engine (quiet_session 0 demo_grid 2 0 0 0))) = true /\
  _check_ghost_collision (quiet_session 0 demo_grid 2 0 0 0) (4, 4) []
    = Ok (false, quiet_session 0 demo_grid 2 0 0 0).
Proof.
  split; [reflexivity |].
  apply (check_ignores_idle_ghosts (quiet_session 0 demo_grid 2 0 0 0) (4, 4) []).
  reflexivity.
Defined.

Lemma check_collision_frame_witness :
  _check_ghost_collision (caught_session 1) (4, 4) [(5, 4)]
    = Ok (true, (_lose_life (caught_session 1)).2) /\
  (score (_lose_life (caught_session 1)).2 = score (caught_session 1) /\
   level (_lose_life (caught_session 1)).2 = level (caught_session 1) /\
   state (_lose_life (caught_session 1)).2 = state (caught_session 1) /\
   _anim_t (_lose_life (caught_session 1)).2 = _anim_t (caught_session 1) /\
   (lives (_lose_life (caught_session 1)).2 = lives (caught_session 1) \/
    lives (_lose_life (caught_session 1)).2 = lives (caught_session 1) - 1)).
Proof.
  split; [reflexivity |].
  apply (check_collision_frame (caught_session 1) (4, 4) [(5, 4)] true
           (_lose_life (caught_session 1)).2).
  reflexivity.
Defined.

(** ** More on [handle_event] and the on-screen pad *)

Lemma py_int_raises (f : float) (ex : exn) :
  py_int f = Raise ex -> ex = OverflowError \/ ex = ValueError.
Proof.
  unfold py_int. destruct (Prim2SF f); intros [= <-]; auto.
Qed.

Lemma c_int_small (z : Z) : - 2 ^ 31 <= z < 2 ^ 31 -> c_int z = Ok z.
Proof.
  intros Hz. unfold c_int.
  change (2 ^ 31) with 2147483648 in *. change (2 ^ 32) with 4294967296.
  change (2 ^ 63) with 9223372036854775808.
  rewrite (proj2 (Z.leb_le _ _)) by lia.
  rewrite (proj2 (Z.ltb_lt _ _)) by lia.
  cbn [andb]. rewrite Z.mod_small by lia. f_equal. lia.
Qed.

Lemma c_int_raises (z : Z) (ex0 : exn) :
  c_int z = Raise ex0 -> ex0 = TypeError.
Proof.
  unfold c_int. destruct ((- 2 ^ 63 <=? z) && (z <? 2 ^ 63));
    [discriminate | intros [= <-]; reflexivity].
Qed.

Lemma collidepoint_small (r : Rect) (p : Z * Z) :
  in_int32 p ->
  collidepoint r p =
    Ok ((rect_left r <=? p.1) && (p.1 <? rect_left r + rect_w r) &&
        (rect_top r <=? p.2) && (p.2 <? rect_top r + rect_h r)).
Proof.
  intros [Hx Hy]. unfold collidepoint.
  rewrite (c_int_small _ Hx), (c_int_small _ Hy). reflexivity.
Qed.

Lemma collidepoint_raises (r : Rect) (p : Z * Z) (ex0 : exn) :
  collidepoint r p = Raise ex0 -> ex0 = TypeError.
Proof.
  unfold collidepoint.
  destruct (c_int p.1) as [x | ex1] eqn:Hx; cbn [bind];
    [| intros [= <-]; eapply c_int_raises; exact Hx].
  destruct (c_int p.2) as [y | ex1] eqn:Hy; cbn [bind];
    [discriminate | intros [= <-]; eapply c_int_raises; exact Hy].
Qed.

Lemma dir_for_pos_raises (p : Z * Z) (ex0 : exn) :
  dir_for_pos p = Raise ex0 -> ex0 = TypeError.
Proof.
  unfold dir_for_pos.
  repeat match goal with
         | |- context [bind (collidepoint ?r p) _] =>
             let Hc := fresh "Hc" in
             destruct (collidepoint r p) as [[|] | ?] eqn:Hc; cbn [bind];
             [| | intros [= <-]; eapply collidepoint_raises; exact Hc]
         end; discriminate.
Qed.

(** X9.  The four squares of the pad: for a point whose coordinates fit a
    32-bit integer, [dir_for_pos] answers "Up", "Down", "Left" or "Right"
    exactly for the points of that direction's 54-pixel square, and [None]
    exactly for the points in none of them; the squares do not overlap, so
    the order of the tests does not matter. *)
Theorem dir_for_pos_squares (p : Z * Z) :
  in_int32 p ->
  (dir_for_pos p = Ok (Some "Up"%string) <-> in_square 243 604 p) /\
  (dir_for_pos p = Ok (Some "Down"%string) <-> in_square 243 712 p) /\
  (dir_for_pos p = Ok (Some "Left"%string) <-> in_square 189 658 p) /\
  (dir_for_pos p = Ok (Some "Right"%string) <-> in_square 297 658 p) /\
  (dir_for_pos p = Ok None <->
   ~ (in_square 243 604 p \/ in_square 243 712 p \/
      in_square 189 658 p \/ in_square 297 658 p)).
Proof.
  intros Hfit. unfold dir_for_pos.
  rewrite !(collidepoint_small _ p Hfit). clear Hfit.
  destruct p as [x y]. unfold dpad_rect, in_square.
  cbn [rect_left rect_top rect_w rect_h fst snd].
  change dpad_base_x with 189. change dpad_base_y with 604.
  change dpad_size with 54. cbn [Z.add Z.mul Pos.add Pos.mul Pos.succ].
  repeat match goal with
         | |- context [?a <=? ?b] => destruct (Z.leb_spec a b)
         | |- context [?a <? ?b] => destruct (Z.ltb_spec a b)
         end;
    cbn [andb bind];
    repeat split; intros; try discriminate; try lia; try reflexivity.
Qed.

Lemma dir_for_pos_squares_witness :
  in_int32 (250, 610) /\
  (dir_for_pos (250, 610) = Ok (Some "Up"%string)
     <-> in_square 243 604 (250, 610)) /\
  (dir_for_pos (250, 610) = Ok (Some "Down"%string)
     <-> in_square 243 712 (250, 610)) /\
  (dir_for_pos (250, 610) = Ok (Some "Left"%string)
     <-> in_square 189 658 (250, 610)) /\
  (dir_for_pos (250, 610) = Ok (Some "Right"%string)
     <-> in_square 297 658 (250, 610)) /\
  (dir_for_pos (250, 610) = Ok None <->
   ~ (in_square 243 604 (250, 610) \/ in_square 243 712 (250, 610) \/
      in_square 189 658 (250, 610) \/ in_square 297 658 (250, 610))).
Proof.
  assert (Hfit : in_int32 (250, 610)) by (unfold in_int32; cbn; lia).
  split; [exact Hfit |].
  exact (dir_for_pos_squares (250, 610) Hfit).
Defined.

Section EventsMore.
Context {Hidden : Type} `{!EngineAPI Hidden} `{!HostAPI}.

Implicit Types (g : Game Hidden) (e : Event).

Lemma keydown_in_raises e (keys : list keycode) (ex0 : exn) :
  keydown_in e keys = Raise ex0 -> ex0 = AttributeError.
Proof.
  unfold keydown_in. destruct (bool_decide (etype e = KEYDOWN)); [| discriminate].
  destruct (ekey e); cbn; [discriminate | intros [= <-]; reflexivity].
Qed.

Lemma keydown_in_true e (keys : list keycode) :
  keydown_in e keys = Ok true <->
  etype e = KEYDOWN /\ exists k, ekey e = Some k /\ k ∈ keys.
Proof.
  unfold keydown_in. split.
  - destruct (bool_decide (etype e = KEYDOWN)) eqn:Ht; [| discriminate].
    apply bool_decide_eq_true in Ht.
    destruct (ekey e) as [k |]; cbn; [| discriminate].
    intros [= Hk]. apply bool_decide_eq_true in Hk. eauto.
  - intros [Ht (k & Hk & Hin)].
    rewrite (bool_decide_eq_true_2 _ Ht), Hk. cbn.
    rewrite (bool_decide_eq_true_2 _ Hin). reflexivity.
Qed.

Lemma getattr_raises {A : Type} (o : option A) (ex0 : exn) :
  getattr o = Raise ex0 -> ex0 = AttributeError.
Proof. destruct o; cbn; [discriminate | intros [= <-]; reflexivity]. Qed.

(** The exceptions [handle_event] can raise, and where [SystemExit] comes
    from. *)
Lemma handle_event_raises g e (ex0 : exn) :
  handle_event g e = Raise ex0 ->
  (ex0 = SystemExit /\ keydown_in e [K_ESCAPE] = Ok true) \/
  ex0 = AttributeError \/ ex0 = OverflowError \/ ex0 = ValueError \/
  ex0 = TypeError.
Proof.
  unfold handle_event.
  destruct (keydown_in e [K_ESCAPE]) as [[|] | ex1] eqn:Hesc; cbn [bind].
  - intros [= <-]. auto.
  - destruct (game_over g).
    + destruct (keydown_in e [K_RETURN; K_SPACE]) as [[|] | ex1] eqn:Hk;
        cbn [bind]; [discriminate | |].
      * destruct (is_mouse_button e && hasattr_pos e); [discriminate |].
        destruct (bool_decide (etype e = FINGERDOWN)); discriminate.
      * intros [= <-]. apply keydown_in_raises in Hk. auto.
    + destruct (bool_decide (state g = TITLE)).
      * destruct (keydown_in e [K_RETURN; K_SPACE]) as [[|] | ex1] eqn:Hk;
          cbn [bind]; [discriminate | |].
        -- destruct (is_mouse_button e).
           ++ destruct (epos e) as [p |]; [| discriminate].
              destruct (collidepoint start_btn p) as [[|] | ex1] eqn:Hc;
                cbn [bind]; try discriminate.
              intros [= <-]. apply collidepoint_raises in Hc. auto 6.
           ++ destruct (bool_decide (etype e = FINGERDOWN)); [| discriminate].
              destruct (getattr (ex e)) as [fx | ex1] eqn:Hx; cbn [bind];
                [| intros [= <-]; apply getattr_raises in Hx; auto].
              destruct (py_int (fx * 540)%float) as [mx | ex1] eqn:Hmx;
                cbn [bind];
                [| intros [= <-];
                   apply py_int_raises in Hmx as [-> | ->]; auto 6].
              destruct (getattr (ey e)) as [fy | ex1] eqn:Hy; cbn [bind];
                [| intros [= <-]; apply getattr_raises in Hy; auto].
              destruct (py_int (fy * 820)%float) as [my | ex1] eqn:Hmy;
                cbn [bind];
                [| intros [= <-];
                   apply py_int_raises in Hmy as [-> | ->]; auto 6].
              destruct (collidepoint start_btn (mx, my)) as [[|] | ex1]
                eqn:Hc; cbn [bind]; try discriminate.
              intros [= <-]. apply collidepoint_raises in Hc. auto 6.
        -- intros [= <-]. apply keydown_in_raises in Hk. auto.
      * destruct (bool_decide (etype e = KEYDOWN)) eqn:Hkey.
        -- apply bool_decide_eq_true in Hkey. rewrite Hkey.
           change (bool_decide (KEYDOWN = MOUSEBUTTONDOWN)) with false.
           destruct (getattr (ekey e)) as [k | ex1] eqn:Hk; cbn [bind];
             [| intros [= <-]; apply getattr_raises in Hk; auto].
           destruct (KEY_TO_DIR k); cbn [bind]; discriminate.
        -- cbn [bind].
           destruct (bool_decide (etype e = MOUSEBUTTONDOWN));
             [| discriminate].
           destruct (getattr (epos e)) as [p | ex1] eqn:Hp; cbn [bind];
             [| intros [= <-]; apply getattr_raises in Hp; auto].
           destruct (dir_for_pos p) as [[d |] | ex1] eqn:Hd; cbn [bind];
             try discriminate.
           intros [= <-]. apply dir_for_pos_raises in Hd. auto 6.
  - intros [= <-]. apply keydown_in_raises in Hesc. auto.
Qed.

(** X10.  [handle_event] ends the program exactly on a press of Escape:
    it raises [SystemExit] if and only if the event is a key press whose key
    is Escape, in every state of the session; any other exception it raises
    is [AttributeError] (an attribute the event lacks), [OverflowError] or
    [ValueError] (a finger coordinate that is infinite or not a number), or
    [TypeError] (a point that [collidepoint] refuses because a coordinate
    does not fit a C integer). *)
Theorem handle_event_quits g e :
  (handle_event g e = Raise SystemExit <->
   etype e = KEYDOWN /\ ekey e = Some K_ESCAPE) /\
  (forall ex0 : exn,
     handle_event g e = Raise ex0 ->
     ex0 = SystemExit \/ ex0 = AttributeError \/
     ex0 = OverflowError \/ ex0 = ValueError \/ ex0 = TypeError).
Proof.
  split.
  - split.
    + intros Hraise.
      destruct (handle_event_raises _ _ _ Hraise)
        as [[_ Hesc] | [Hc | [Hc | [Hc | Hc]]]]; try discriminate.
      apply keydown_in_true in Hesc as [Ht (k & Hk & Hin)].
      split; [exact Ht |]. rewrite Hk. f_equal.
      apply list_elem_of_singleton in Hin. exact Hin.
    + intros [Ht Hk]. unfold handle_event.
      assert (Hesc : keydown_in e [K_ESCAPE] = Ok true).
      { apply keydown_in_true. split; [exact Ht |].
        exists K_ESCAPE. split; [exact Hk | apply list_elem_of_singleton; reflexivity]. }
      rewrite Hesc. reflexivity.
  - intros ex0 Hraise.
    destruct (handle_event_raises _ _ _ Hraise) as [[-> _] | Hc]; auto.
Qed.

(** X11.  At game over every event that is handled either restarts or is
    swallowed: when [handle_event] returns, the session is the restarted one
    if the event is a restart trigger and is unchanged otherwise (a
    direction key or a click on the pad does not reach the engine). *)
Theorem game_over_input g e g' :
  game_over g = true ->
  handle_event g e = Ok g' ->
  g' = (if restart_trigger e then set_state (reset_game g) TITLE else g).
Proof.
  intros Hover. unfold handle_event, restart. rewrite Hover.
  destruct e as [t k p x y].
  unfold restart_trigger, keydown_in, getattr, is_mouse_button, hasattr_pos.
  cbn [etype ekey epos ex ey].
  destruct t; cbn; try (destruct k as [[] |]; cbn);
    try (destruct p; cbn); intros [= <-]; reflexivity.
Qed.

(** X12.  On the title screen a mouse button press or release at a point
    [(x, y)] whose coordinates fit a 32-bit integer starts the game exactly
    when the point is on the Start button, pixels 180..359 across and
    524..579 down; anywhere else it changes nothing. *)
Theorem title_click g e (x y : Z) :
  game_over g = false ->
  state g = TITLE ->
  etype e = MOUSEBUTTONDOWN \/ etype e = MOUSEBUTTONUP ->
  epos e = Some (x, y) ->
  in_int32 (x, y) ->
  handle_event g e =
    Ok (if (180 <=? x) && (x <? 360) && (524 <=? y) && (y <? 580)
        then set_state g PLAY else g).
Proof.
  intros Hover Hstate Htype Hpos Hfit.
  unfold handle_event, keydown_in, is_mouse_button.
  rewrite Hover, Hstate, Hpos, (collidepoint_small start_btn (x, y) Hfit).
  change ((rect_left start_btn <=? (x, y).1) &&
          ((x, y).1 <? rect_left start_btn + rect_w start_btn) &&
          (rect_top start_btn <=? (x, y).2) &&
          ((x, y).2 <? rect_top start_btn + rect_h start_btn))
    with ((180 <=? x) && (x <? 360) && (524 <=? y) && (y <? 580)).
  destruct Htype as [-> | ->];
    destruct ((180 <=? x) && (x <? 360) && (524 <=? y) && (y <? 580));
    reflexivity.
Qed.

(** X13.  Outside play, input does not reach the simulation: on the title
    screen or at game over, a handled event leaves the session as it was,
    or (game over) restarts it, or (title) moves it to PLAY with nothing
    else changed. *)
Theorem input_swallowed_outside_play g e g' :
  game_over g = true \/ state g = TITLE ->
  handle_event g e = Ok g' ->
  g' = g \/
  (game_over g = true /\ g' = set_state (reset_game g) TITLE) \/
  (game_over g = false /\ g' = set_state g PLAY).
Proof.
  intros Hwhere Hev.
  destruct (handle_event_shapes _ _ _ Hev)
    as [-> | [[Hover ->] | [(Hover & _ & ->) | (Hover & Hstate & _)]]]; auto.
  destruct Hwhere as [Hcontra | Hcontra]; [congruence | contradiction].
Qed.

End EventsMore.

Section PlayInput.
Context {Hidden : Type} `{!EngineAPI Hidden} `{!HostAPI}.

Implicit Types (g : Game Hidden) (e : Event).

(** X14.  During play, a press of an arrow key or of W, A, S, D sets
    Fitz-Man's next direction to the key's direction and changes nothing
    else; and whatever the event, a handled event leaves the session as it
    was or differs from it only in that next direction, which is one of
    "Left", "Right", "Up", "Down". *)
Theorem play_input g e :
  game_over g = false ->
  state g = PLAY ->
  (forall (k : keycode) (d : string),
     etype e = KEYDOWN -> ekey e = Some k -> KEY_TO_DIR k = Some d ->
     handle_event g e = Ok (set_engine g (set_dirNext (engine g) d))) /\
  (forall g' : Game Hidden,
     handle_event g e = Ok g' ->
     g' = g \/
     exists d : string,
       In d ["Left"; "Right"; "Up"; "Down"]%string /\
       g' = set_engine g (set_dirNext (engine g) d)).
Proof.
  intros Hover Hstate. unfold handle_event. rewrite Hover, Hstate.
  change (bool_decide (PLAY = TITLE)) with false. cbv iota.
  split.
  - intros k d Ht Hk Hd. apply KEY_TO_DIR_range in Hd as Hrange.
    destruct Hrange as [Hesc _].
    unfold keydown_in. rewrite Ht, Hk.
    change (bool_decide (KEYDOWN = KEYDOWN)) with true.
    change (bool_decide (KEYDOWN = MOUSEBUTTONDOWN)) with false.
    cbn [getattr bind]. rewrite Hd.
    rewrite bool_decide_eq_false_2; [reflexivity |].
    intros Hin. apply list_elem_of_singleton in Hin. contradiction.
  - intros g' Hev.
    assert (Hev' : handle_event g e = Ok g').
    { unfold handle_event. rewrite Hover, Hstate. exact Hev. }
    destruct (handle_event_shapes _ _ _ Hev')
      as [-> | [[Hc _] | [(_ & Hc & _) | (_ & _ & d & Hin & ->)]]];
      [auto | congruence | congruence | eauto].
Qed.

(** X15.  During play a mouse button press that carries no position raises
    [AttributeError]: the [hasattr] test that guards the title and game-over
    branches is not made before [e.pos] is read at line 236. *)
Theorem play_click_without_pos_raises g e :
  game_over g = false ->
  state g = PLAY ->
  etype e = MOUSEBUTTONDOWN ->
  epos e = None ->
  handle_event g e = Raise AttributeError.
Proof.
  intros Hover Hstate Ht Hp. unfold handle_event, keydown_in.
  rewrite Hover, Hstate, Ht, Hp. reflexivity.
Qed.

End PlayInput.

Lemma game_over_input_witness :
  (game_over over_session = true /\
   handle_event over_session (key_event K_LEFT) = Ok over_session) /\
  over_session =
    (if restart_trigger (key_event K_LEFT)
     then set_state (reset_game over_session) TITLE else over_session).
Proof.
  split; [split; reflexivity |].
  apply (game_over_input over_session (key_event K_LEFT) over_session);
    reflexivity.
Defined.

Lemma title_click_witness :
  (game_over (@Game_init nat _) = false /\
   state (@Game_init nat _) = TITLE /\
   (etype (mouse_event MOUSEBUTTONUP (Some (200, 550))) = MOUSEBUTTONDOWN \/
    etype (mouse_event MOUSEBUTTONUP (Some (200, 550))) = MOUSEBUTTONUP) /\
   epos (mouse_event MOUSEBUTTONUP (Some (200, 550))) = Some (200, 550) /\
   in_int32 (200, 550)) /\
  handle_event Game_init (mouse_event MOUSEBUTTONUP (Some (200, 550))) =
    Ok (if (180 <=? 200) && (200 <? 360) && (524 <=? 550) && (550 <? 580)
        then set_state Game_init PLAY else Game_init).
Proof.
  assert (Hfit : in_int32 (200, 550)) by (unfold in_int32; cbn; lia).
  split; [repeat split; auto; apply Hfit |].
  apply (title_click Game_init (mouse_event MOUSEBUTTONUP (Some (200, 550)))
           200 550); auto.
Defined.

Lemma input_swallowed_outside_play_witness :
  ((game_over (@Game_init nat _) = true \/ state (@Game_init nat _) = TITLE) /\
   handle_event Game_init (key_event K_LEFT) = Ok Game_init) /\
  (Game_init = Game_init \/
   (game_over (@Game_init nat _) = true /\
    Game_init = set_state (reset_game Game_init) TITLE) \/
   (game_over (@Game_init nat _) = false /\
    Game_init = set_state Game_init PLAY)).
Proof.
  split; [split; [right |]; reflexivity |].
  apply (input_swallowed_outside_play Game_init (key_event K_LEFT) Game_init);
    [right |]; reflexivity.
Defined.

Lemma play_input_witness :
  (game_over (quiet_session 0 demo_grid 2 0 0 0) = false /\
   state (quiet_session 0 demo_grid 2 0 0 0) = PLAY) /\
  (forall (k : keycode) (d : string),
     etype (key_event K_w) = KEYDOWN -> ekey (key_event K_w) = Some k ->
     KEY_TO_DIR k = Some d ->
     handle_event (quiet_session 0 demo_grid 2 0 0 0) (key_event K_w)
       = Ok (set_engine (quiet_session 0 demo_grid 2 0 0 0)
               (set_dirNext (engine (quiet_session 0 demo_grid 2 0 0 0)) d))) /\
  (forall g' : Game nat,
     handle_event (quiet_session 0 demo_grid 2 0 0 0) (key_event K_w) = Ok g' ->
     g' = quiet_session 0 demo_grid 2 0 0 0 \/
     exists d : string,
       In d ["Left"; "Right"; "Up"; "Down"]%string /\
       g' = set_engine (quiet_session 0 demo_grid 2 0 0 0)
              (set_dirNext (engine (quiet_session 0 demo_grid 2 0 0 0)) d)).
Proof.
  split; [split; reflexivity |].
  apply (play_input (quiet_session 0 demo_grid 2 0 0 0) (key_event K_w));
    reflexivity.
Defined.

Lemma play_click_without_pos_raises_witness :
  (game_over (quiet_session 0 demo_grid 2 0 0 0) = false /\
   state (quiet_session 0 demo_grid 2 0 0 0) = PLAY /\
   etype (mouse_event MOUSEBUTTONDOWN None) = MOUSEBUTTONDOWN /\
   epos (mouse_event MOUSEBUTTONDOWN None) = None) /\
  handle_event (quiet_session 0 demo_grid 2 0 0 0)
    (mouse_event MOUSEBUTTONDOWN None) = Raise AttributeError.
Proof.
  split; [repeat split |].
  apply (play_click_without_pos_raises (quiet_session 0 demo_grid 2 0 0 0)
           (mouse_event MOUSEBUTTONDOWN None)); reflexivity.
Defined.

(** ** More on [update] *)

Section UpdateMore.
Context {Hidden : Type} `{!EngineAPI Hidden} `{!HostAPI}.

Implicit Types (g : Game Hidden) (e : GameEngine Hidden).

(** X16.  A frame shorter than what is missing to a full tick only
    accumulates time: in play, when the budget plus [dt] is still below
    [engine_dt], [update] returns at once with [dt] added to the budget and
    to the animation clock, and the engine is not ticked. *)
Theorem update_short_frame (n : nat) g (dt : float) :
  game_over g = false ->
  state g = PLAY ->
  PrimFloat.leb engine_dt (engine_accum g + dt) = false ->
  update n g dt =
    Returned {| score := score g; lives := lives g; level := level g;
                game_over := game_over g; engine := engine g;
                engine_accum := (engine_accum g + dt)%float;
                state := state g; _anim_t := (_anim_t g + dt)%float |}.
Proof.
  intros Hover Hstate Hshort. unfold update. rewrite Hover, Hstate.
  change (bool_decide (PLAY = PLAY)) with true. cbn [orb negb].
  destruct n; cbn [update_loop]; unfold loop_test; cbn [engine_accum];
    rewrite Hshort; reflexivity.
Qed.

(** X17.  Pellet handling fails in one way only: it raises [IndexError]
    exactly when Fitz-Man is on a tile centre with relative coordinates
    inside the 28 x 32 bounds but the grid has no tile object there (a grid
    smaller than the bounds); it raises no other exception. *)
Theorem pellet_step_index_error g (ex0 : exn) :
  pellet_step g = Raise ex0 <->
  ex0 = IndexError /\
  on_tile_centre (movingObjectPacman (engine g)) = true /\
  in_grid (movingObjectPacman (engine g)) = true /\
  tile_at (levelObjects (engine g)) (pac_tile (engine g)).1
          (pac_tile (engine g)).2 = None.
Proof.
  unfold pellet_step, on_tile_centre, in_grid, pac_tile, tile_at.
  destruct (coordinateAbs (movingObjectPacman (engine g))) as [ax ay].
  destruct (coordinateRel (movingObjectPacman (engine g))) as [rx ry].
  cbn [fst snd].
  destruct ((ax mod 4 =? 0) && (ay mod 4 =? 0));
    [| split; [discriminate | intros (_ & [=] & _)]].
  destruct ((0 <=? rx) && (rx <? GRID_W) && (0 <=? ry) && (ry <? GRID_H));
    [| split; [discriminate | intros (_ & _ & [=] & _)]].
  destruct (levelObjects (engine g) !! Z.to_nat rx) as [col |].
  - destruct (col !! Z.to_nat ry) as [obj |].
    + destruct (is_live_pellet obj);
        (split; [discriminate | intros (_ & _ & _ & [=])]).
    + split; [intros [= <-]; auto | intros (-> & _); reflexivity].
  - split; [intros [= <-]; auto | intros (-> & _); reflexivity].
Qed.


Lemma loop_body_score g :
  match loop_body g with
  | BodyNext g' => score g' = score g \/ score g' = score g + 10
  | BodyReturn g' => score g' = score g
  | BodyRaise _ => True
  end.
Proof.
  destruct (loop_body g) as [g' | g' | ex0] eqn:Hbody; [| | exact I].
  - apply loop_body_next in Hbody as [_ Hstep].
    apply pellet_step_spec in Hstep as [Heat _].
    destruct (eat_conditions (engine (ticked g))).
    + right. destruct Heat as [Hs _]. exact Hs.
    + left. subst g'. reflexivity.
  - apply loop_body_return in Hbody. subst g'.
    pose proof (lose_life_frame (ticked g)) as (_ & Hs & _). exact Hs.
Qed.

Lemma update_loop_score (n : nat) g (steps : Z) :
  match update_loop n g steps with
  | Returned g' | StillLooping g' _ =>
      exists k : nat, (k <= n)%nat /\ score g' = score g + 10 * Z.of_nat k
  | Raised _ => True
  end.
Proof.
  revert g. induction n as [| n IH]; intros g; cbn [update_loop].
  - destruct (loop_test g steps); exists 0%nat; split; lia.
  - destruct (loop_test g steps); [| exists 0%nat; split; lia].
    pose proof (loop_body_score g) as Hs.
    destruct (loop_body g) as [g1 | g1 | ex0]; [| | exact I].
    + specialize (IH g1).
      destruct (update_loop n g1 steps) as [g' | ex0 | g' st]; [| exact I |];
        destruct IH as (k & Hk & Hsc);
        (destruct Hs as [Hs | Hs];
         [exists k | exists (S k)]; split; lia).
    + exists 0%nat. split; lia.
Qed.

Lemma update_outcome_score (n : nat) g (dt : float) :
  match update n g dt with
  | Returned g' | StillLooping g' _ =>
      exists k : nat, (k <= n)%nat /\ score g' = score g + 10 * Z.of_nat k
  | Raised _ => True
  end.
Proof.
  unfold update.
  destruct (game_over g || negb (bool_decide (state g = PLAY))).
  - exists 0%nat. split; [lia | lia].
  - match goal with
    | |- context [update_loop n ?g1 0] => exact (update_loop_score n g1 0)
    end.
Qed.

(** X18.  [update] never takes points away: the session it returns, or
    that is seen between two passes of its loop, has the score it started
    with plus 10 for each pellet eaten, and at most one pellet is eaten per
    pass. *)
Theorem update_score (n : nat) g (dt : float) :
  match update n g dt with
  | Returned g' | StillLooping g' _ =>
      exists k : nat, (k <= n)%nat /\ score g' = score g + 10 * Z.of_nat k
  | Raised _ => True
  end.
Proof.
  unfold update.
  destruct (game_over g || negb (bool_decide (state g = PLAY))).
  - exists 0%nat. split; lia.
  - match goal with
    | |- context [update_loop n ?g1 0] =>
        pose proof (update_loop_score n g1 0) as Hloop;
        destruct (update_loop n g1 0)
    end; exact Hloop.
Qed.

End UpdateMore.

Lemma update_short_frame_witness :
  (game_over (quiet_session 0 demo_grid 2 0 0.03125 0) = false /\
   state (quiet_session 0 demo_grid 2 0 0.03125 0) = PLAY /\
   PrimFloat.leb engine_dt
     (engine_accum (quiet_session 0 demo_grid 2 0 0.03125 0) + 0.0625)
     = false) /\
  update 3 (quiet_session 0 demo_grid 2 0 0.03125 0) 0.0625 =
    Returned
      {| score := score (quiet_session 0 demo_grid 2 0 0.03125 0);
         lives := lives (quiet_session 0 demo_grid 2 0 0.03125 0);
         level := level (quiet_session 0 demo_grid 2 0 0.03125 0);
         game_over := game_over (quiet_session 0 demo_grid 2 0 0.03125 0);
         engine := engine (quiet_session 0 demo_grid 2 0 0.03125 0);
         engine_accum :=
           (engine_accum (quiet_session 0 demo_grid 2 0 0.03125 0) + 0.0625)%float;
         state := state (quiet_session 0 demo_grid 2 0 0.03125 0);
         _anim_t :=
           (_anim_t (quiet_session 0 demo_grid 2 0 0.03125 0) + 0.0625)%float |}.
Proof.
  split; [repeat split |].
  apply (update_short_frame 3 (quiet_session 0 demo_grid 2 0 0.03125 0) 0.0625);
    reflexivity.
Defined.

(** ** More invariants of the sessions the program can be in *)

Section Invariants.
Context {Hidden : Type} `{!EngineAPI Hidden} `{!HostAPI}.

Implicit Types (g : Game Hidden) (e : Event).

Lemma lose_life_flag g :
  game_over (_lose_life g).2 = (lives g - 1 <? 0) || game_over g.
Proof. unfold _lose_life. destruct (lives g - 1 <? 0); reflexivity. Qed.

Lemma update_loop_precise (n : nat) g (steps : Z) :
  match update_loop n g steps with
  | Returned g' =>
      level g' = level g /\
      ((lives g' = lives g /\ game_over g' = game_over g) \/
       (lives g' = lives g - 1 /\
        game_over g' = (lives g - 1 <? 0) || game_over g))
  | StillLooping g' _ =>
      level g' = level g /\ lives g' = lives g /\ game_over g' = game_over g
  | Raised _ => True
  end.
Proof.
  revert g. induction n as [| n IH]; intros g; cbn [update_loop].
  - destruct (loop_test g steps); auto.
  - destruct (loop_test g steps); [| auto].
    destruct (loop_body g) as [g1 | g1 | ex0] eqn:Hbody; [| | exact I].
    + pose proof (loop_body_next_frame _ _ Hbody) as (_ & Hl & Hlv & Hgo & _).
      specialize (IH g1). rewrite Hl, Hlv, Hgo in IH. exact IH.
    + apply loop_body_return in Hbody. subst g1.
      pose proof (lose_life_frame (ticked g)) as (Hl & _ & Hlv & _).
      split; [exact Hlv |]. right. split; [exact Hl |].
      apply (lose_life_flag (ticked g)).
Qed.

Lemma update_precise (n : nat) g (dt : float) :
  match update n g dt with
  | Returned g' =>
      level g' = level g /\
      ((lives g' = lives g /\ game_over g' = game_over g) \/
       (game_over g = false /\ lives g' = lives g - 1 /\
        game_over g' = (lives g - 1 <? 0)))
  | StillLooping g' _ =>
      level g' = level g /\ lives g' = lives g /\ game_over g' = game_over g
  | Raised _ => True
  end.
Proof.
  unfold update. destruct (game_over g) eqn:Hover; cbn [orb]; [auto |].
  destruct (negb (bool_decide (state g = PLAY))); [auto |].
  match goal with
  | |- context [update_loop n ?g1 0] =>
      pose proof (update_loop_precise n g1 0) as Hloop;
      destruct (update_loop n g1 0)
  end; cbn [lives game_over level] in Hloop; [| exact I | exact Hloop].
  destruct Hloop as [Hlv [Hsame | [Hl Hgo]]]; split; auto.
  right. rewrite orb_false_r in Hgo. auto.
Qed.

Lemma step_session_ok g g' : step g g' -> session_ok g -> session_ok g'.
Proof.
  intros Hstep (Hlevel & Hlives & Hflag & k & Hscore).
  destruct Hstep as [g0 e g1 Hev | g0 dt n g1 Hup | g0 dt n g1 steps Hup].
  - destruct (handle_event_shapes _ _ _ Hev)
      as [-> | [[_ ->] | [(_ & _ & ->) | (_ & _ & d & _ & ->)]]];
      unfold session_ok; cbn.
    + eauto.
    + repeat split; try lia; try discriminate. exists 0%nat. reflexivity.
    + eauto.
    + eauto.
  - pose proof (update_precise n g0 dt) as Hp.
    pose proof (update_outcome_score n g0 dt) as Hs.
    rewrite Hup in Hp, Hs. destruct Hs as (j & _ & Hs).
    destruct Hp as [Hlv Hp]. unfold session_ok.
    split; [congruence |].
    assert (Hsc : exists k' : nat, score g1 = 10 * Z.of_nat k').
    { exists (k + j)%nat. lia. }
    destruct Hp as [[Hl Hgo] | (Hgo0 & Hl & Hgo)].
    + rewrite Hl, Hgo. auto.
    + assert (0 <= lives g0).
      { destruct (Z.eq_dec (lives g0) (-1)) as [Heq | Hne]; [| lia].
        apply Hflag in Heq. congruence. }
      split; [lia |]. split; [| exact Hsc].
      rewrite Hgo, Hl. rewrite Z.ltb_lt. lia.
  - pose proof (update_precise n g0 dt) as Hp.
    pose proof (update_outcome_score n g0 dt) as Hs.
    rewrite Hup in Hp, Hs. destruct Hs as (j & _ & Hs).
    destruct Hp as (Hlv & Hl & Hgo). unfold session_ok.
    rewrite Hlv, Hl, Hgo. repeat split; try tauto; try lia.
    exists (k + j)%nat. lia.
Qed.

Lemma reachable_session_ok g : reachable g -> session_ok g.
Proof.
  induction 1 as [| g g' _ IH Hstep].
  - unfold session_ok. cbn. repeat split; try lia; try discriminate.
    exists 0%nat. reflexivity.
  - exact (step_session_ok _ _ Hstep IH).
Qed.

End Invariants.

Section ReachableMore.
Context {Hidden : Type} `{!EngineAPI Hidden} `{!HostAPI}.

Implicit Types (g : Game Hidden) (e : Event).

(** X19.  In every session the program can be in, lives are at most 2, and
    the game-over flag is set exactly when lives are -1. *)
Theorem lives_and_flag g :
  reachable g -> lives g <= 2 /\ (game_over g = true <-> lives g = -1).
Proof.
  intros Hreach.
  destruct (reachable_session_ok g Hreach) as (_ & Hlives & Hflag & _).
  split; [lia | exact Hflag].
Qed.

(** X20.  In every session the program can be in, the score is a
    non-negative multiple of 10. *)
Theorem score_multiple_of_ten g :
  reachable g -> 0 <= score g /\ score g mod 10 = 0.
Proof.
  intros Hreach.
  destruct (reachable_session_ok g Hreach) as (_ & _ & _ & k & Hscore).
  rewrite Hscore. split; [lia |].
  rewrite Z.mul_comm. apply Z_mod_mult.
Qed.

Lemma pump_events_app g (pre post : list Event) :
  pump_events g (pre ++ post) =
    match pump_events g pre with
    | Ok (g1, true) => pump_events g1 post
    | other => other
    end.
Proof.
  revert g. induction pre as [| e pre IH]; intros g.
  - reflexivity.
  - cbn [app pump_events].
    destruct (bool_decide (etype e = QUIT)); [reflexivity |].
    destruct (handle_event g e) as [g1 | [] ]; try reflexivity. apply IH.
Qed.

(** X21.  The event loop of a frame stops at the first [QUIT] event or
    press of Escape: the events before it are handled in order, [running]
    is cleared, and whatever comes after it in the same batch is dropped
    without being handled. *)
Theorem pump_events_stops_at_quit g (pre : list Event) e (rest : list Event)
    (g1 : Game Hidden) :
  pump_events g pre = Ok (g1, true) ->
  quits e = true ->
  pump_events g (pre ++ e :: rest) = Ok (g1, false).
Proof.
  intros Hpre Hquit. rewrite pump_events_app, Hpre. cbn [pump_events].
  unfold quits in Hquit.
  destruct (bool_decide (etype e = QUIT)); [reflexivity |].
  cbn [orb] in Hquit. apply andb_prop in Hquit as [Ht Hk].
  apply bool_decide_eq_true in Ht. apply bool_decide_eq_true in Hk.
  assert (Hexit : handle_event g1 e = Raise SystemExit).
  { unfold handle_event, keydown_in. rewrite Ht, Hk. reflexivity. }
  rewrite Hexit. reflexivity.
Qed.

Lemma pump_events_reachable g (events : list Event) (g1 : Game Hidden)
    (running : bool) :
  reachable g -> pump_events g events = Ok (g1, running) -> reachable g1.
Proof.
  revert g. induction events as [| e rest IH]; intros g Hreach.
  - cbn. intros [= <- _]. exact Hreach.
  - cbn [pump_events].
    destruct (bool_decide (etype e = QUIT));
      [intros [= <- _]; exact Hreach |].
    destruct (handle_event g e) as [g2 | ex0] eqn:Hev.
    + apply IH. apply reach_step with (g := g); [exact Hreach |].
      apply step_event with (e := e). exact Hev.
    + destruct ex0; try discriminate. intros [= <- _]. exact Hreach.
Qed.

(** X22.  A frame of the main loop stays within the sessions counted as
    reachable: from a reachable session, after the batch of events and the
    call of [update], the session the frame ends in (or is seen in between
    two passes of the loop of [update]) is reachable again, so the bounds
    proved of reachable sessions hold along the main loop. *)
Theorem main_frame_reachable (n : nat) g (events : list Event) (dt : float)
    (o : update_outcome Hidden) (running : bool) :
  reachable g ->
  main_frame n g events dt = Ok (o, running) ->
  match o with
  | Returned g' | StillLooping g' _ => reachable g'
  | Raised _ => True
  end.
Proof.
  intros Hreach. unfold main_frame.
  destruct (pump_events g events) as [[g1 r] | ex0] eqn:Hpump;
    [| discriminate].
  intros [= <- _].
  pose proof (pump_events_reachable _ _ _ _ Hreach Hpump) as Hreach1.
  destruct (update n g1 dt) as [g' | ex0 | g' steps] eqn:Hup; [| exact I |].
  - apply reach_step with (g := g1); [exact Hreach1 |].
    apply step_update with (dt := dt) (passes := n). exact Hup.
  - apply reach_step with (g := g1); [exact Hreach1 |].
    apply step_update_inside with (dt := dt) (passes := n) (steps := steps).
    exact Hup.
Qed.

End ReachableMore.

Lemma demo_over_reachable : reachable demo_over.
Proof.
  apply reach_step with (g := demo_life 0 (0 + engine_dt + engine_dt)%float).
  - apply reach_step with (g := demo_life 1 (0 + engine_dt)%float).
    + apply reach_step with (g := demo_life 2 0%float).
      * apply reach_step with (g := Game_init); [apply reach_init |].
        apply step_event with (e := key_event K_RETURN). reflexivity.
      * apply step_update with (dt := engine_dt) (passes := 1%nat).
        reflexivity.
    + apply step_update with (dt := engine_dt) (passes := 1%nat). reflexivity.
  - apply step_update with (dt := engine_dt) (passes := 1%nat). reflexivity.
Qed.

Lemma lives_and_flag_witness :
  reachable demo_over /\
  (lives demo_over <= 2 /\ (game_over demo_over = true <-> lives demo_over = -1)).
Proof.
  split; [exact demo_over_reachable |].
  exact (lives_and_flag demo_over demo_over_reachable).
Defined.

Lemma score_multiple_of_ten_witness :
  reachable demo_over /\ (0 <= score demo_over /\ score demo_over mod 10 = 0).
Proof.
  split; [exact demo_over_reachable |].
  exact (score_multiple_of_ten demo_over demo_over_reachable).
Defined.

Lemma pump_events_stops_at_quit_witness :
  (pump_events (@Game_init nat _) [key_event K_RETURN]
     = Ok (demo_life 2 0%float, true) /\
   quits (key_event K_ESCAPE) = true) /\
  pump_events (@Game_init nat _)
    ([key_event K_RETURN] ++ key_event K_ESCAPE :: [key_event K_LEFT])
    = Ok (demo_life 2 0%float, false).
Proof.
  split; [split; reflexivity |].
  apply (pump_events_stops_at_quit Game_init [key_event K_RETURN]
           (key_event K_ESCAPE) [key_event K_LEFT] (demo_life 2 0%float));
    reflexivity.
Defined.

Lemma main_frame_reachable_witness :
  (reachable (@Game_init nat _) /\
   main_frame 1 (@Game_init nat _) [key_event K_RETURN] engine_dt
     = Ok (Returned (demo_life 1 (0 + engine_dt)%float), true)) /\
  reachable (demo_life 1 (0 + engine_dt)%float).
Proof.
  split; [split; [apply reach_init | reflexivity] |].
  apply (main_frame_reachable 1 Game_init [key_event K_RETURN] engine_dt
           (Returned (demo_life 1 (0 + engine_dt)%float)) true);
    [apply reach_init | reflexivity].
Defined.

(** ** The pellet counter against the grid *)

Lemma count_live_insert (col : list LevelObject) (y : nat) (obj : LevelObject) :
  col !! y = Some obj ->
  count_live (<[y := eaten]> col)
    = count_live col - (if is_live_pellet obj then 1 else 0).
Proof.
  revert y. induction col as [| o col IH]; intros y Hy.
  - discriminate.
  - destruct y as [| y].
    + cbn in Hy. injection Hy as ->. cbn. lia.
    + cbn in Hy. cbn [count_live]. change (<[S y := eaten]> (o :: col))
        with (o :: <[y := eaten]> col).
      cbn [count_live]. rewrite (IH y Hy). lia.
Qed.

Lemma live_pellets_insert (grid : list (list LevelObject)) (x : nat)
    (col col' : list LevelObject) :
  grid !! x = Some col ->
  live_pellets (<[x := col']> grid)
    = live_pellets grid - count_live col + count_live col'.
Proof.
  revert x. induction grid as [| c grid IH]; intros x Hx.
  - discriminate.
  - destruct x as [| x].
    + cbn in Hx. injection Hx as ->. cbn. lia.
    + cbn in Hx. change (<[S x := col']> (c :: grid))
        with (c :: <[x := col']> grid).
      cbn [live_pellets]. rewrite (IH x Hx). lia.
Qed.

Section PelletCount.
Context {Hidden : Type} `{!EngineAPI Hidden} `{!HostAPI}.

(** X23.  Pellet handling keeps the counter in step with the grid: when it
    returns, the difference between [levelPelletRemaining] and the number
    of undestroyed pellets in the grid is what it was, so a counter that
    matched the grid before still matches it after; the number of
    undestroyed pellets never goes up. *)
Theorem pellet_step_keeps_count (g g' : Game Hidden) :
  pellet_step g = Ok g' ->
  levelPelletRemaining (engine g') - live_pellets (levelObjects (engine g'))
    = levelPelletRemaining (engine g) - live_pellets (levelObjects (engine g))
  /\ live_pellets (levelObjects (engine g'))
       <= live_pellets (levelObjects (engine g)).
Proof.
  unfold pellet_step.
  destruct (coordinateAbs (movingObjectPacman (engine g))) as [ax ay].
  destruct ((ax mod 4 =? 0) && (ay mod 4 =? 0));
    [| intros [= <-]; split; lia].
  destruct (coordinateRel (movingObjectPacman (engine g))) as [rx ry].
  destruct ((0 <=? rx) && (rx <? GRID_W) && (0 <=? ry) && (ry <? GRID_H));
    [| intros [= <-]; split; lia].
  destruct (levelObjects (engine g) !! Z.to_nat rx) as [col |] eqn:Hcol;
    [| discriminate].
  destruct (col !! Z.to_nat ry) as [obj |] eqn:Hobj; [| discriminate].
  destruct (is_live_pellet obj) eqn:Hlive; [| intros [= <-]; split; lia].
  intros [= <-]. cbn [engine eat_at levelObjects levelPelletRemaining].
  rewrite (live_pellets_insert _ _ col _ Hcol).
  rewrite (count_live_insert _ _ obj Hobj), Hlive. split; lia.
Qed.

End PelletCount.

Lemma pellet_step_keeps_count_witness :
  pellet_step (quiet_session 50 last_pellet_grid 1 0 0.5 0)
    = Ok (quiet_session 60 cleared_grid 0 0 0.5 0) /\
  (levelPelletRemaining (engine (quiet_session 60 cleared_grid 0 0 0.5 0))
     - live_pellets (levelObjects (engine (quiet_session 60 cleared_grid 0 0 0.5 0)))
   = levelPelletRemaining (engine (quiet_session 50 last_pellet_grid 1 0 0.5 0))
     - live_pellets
         (levelObjects (engine (quiet_session 50 last_pellet_grid 1 0 0.5 0)))
   /\ live_pellets (levelObjects (engine (quiet_session 60 cleared_grid 0 0 0.5 0)))
        <= live_pellets
             (levelObjects (engine (quiet_session 50 last_pellet_grid 1 0 0.5 0)))).
Proof.
  split; [reflexivity |].
  apply (pellet_step_keeps_count (quiet_session 50 last_pellet_grid 1 0 0.5 0)
           (quiet_session 60 cleared_grid 0 0 0.5 0)).
  reflexivity.
Defined.

(** ** Pixel positions *)

Lemma px_coord_exact (origin a : Z) :
  origin = BOARD_X \/ origin = BOARD_Y ->
  0 <= a < 128 ->
  px_coord origin a = Ok (origin + 6 * a + 12).
Proof.
  intros Horigin Ha.
  assert (Hall :
    forallb (fun n : nat =>
      match px_coord BOARD_X (Z.of_nat n), px_coord BOARD_Y (Z.of_nat n) with
      | Ok u, Ok v =>
          (u =? BOARD_X + 6 * Z.of_nat n + 12) &&
          (v =? BOARD_Y + 6 * Z.of_nat n + 12)
      | _, _ => false
      end) (List.seq 0 128) = true) by (vm_compute; reflexivity).
  rewrite forallb_forall in Hall.
  specialize (Hall (Z.to_nat a)).
  rewrite Z2Nat.id in Hall by lia.
  assert (Hin : In (Z.to_nat a) (List.seq 0 128)) by (apply in_seq; lia).
  specialize (Hall Hin).
  destruct (px_coord BOARD_X a) as [u | ex0] eqn:HX; [| discriminate].
  destruct (px_coord BOARD_Y a) as [v | ex0] eqn:HY; [| discriminate].
  apply andb_prop in Hall as [Hu Hv].
  apply Z.eqb_eq in Hu. apply Z.eqb_eq in Hv.
  destruct Horigin as [-> | ->]; [rewrite HX | rewrite HY]; congruence.
Qed.

(** X24.  For every absolute position on the board (x below 112, y below
    128) [px_from_abs] returns, and the pixel it gives is 6 pixels per
    sub-unit from the board origin plus half a tile; in particular
    Fitz-Man or a ghost standing on the centre of tile [(x, y)], at
    absolute position [(4x, 4y)], is drawn at the very pixel at which
    [draw] centres that tile's sprite. *)
Theorem px_from_abs_on_board (ax ay : Z) :
  0 <= ax < 4 * GRID_W ->
  0 <= ay < 4 * GRID_H ->
  px_from_abs ax ay = Ok (BOARD_X + 6 * ax + 12, BOARD_Y + 6 * ay + 12) /\
  (ax mod 4 = 0 -> ay mod 4 = 0 ->
   px_from_abs ax ay = Ok (tile_centre (ax / 4) (ay / 4))).
Proof.
  intros Hx Hy. unfold GRID_W in Hx. unfold GRID_H in Hy.
  assert (Hpx : px_from_abs ax ay
                = Ok (BOARD_X + 6 * ax + 12, BOARD_Y + 6 * ay + 12)).
  { unfold px_from_abs.
    rewrite (px_coord_exact BOARD_X ax) by (auto; lia). cbn [bind].
    rewrite (px_coord_exact BOARD_Y ay) by (auto; lia). reflexivity. }
  split; [exact Hpx |].
  intros Hmx Hmy. rewrite Hpx. unfold tile_centre, TILE. do 2 f_equal.
  - pose proof (Z.div_mod ax 4 ltac:(lia)). change (24 / 2) with 12. lia.
  - pose proof (Z.div_mod ay 4 ltac:(lia)). change (24 / 2) with 12. lia.
Qed.

Lemma px_from_abs_on_board_witness :
  (0 <= 8 < 4 * GRID_W /\ 0 <= 12 < 4 * GRID_H) /\
  px_from_abs 8 12 = Ok (BOARD_X + 6 * 8 + 12, BOARD_Y + 6 * 12 + 12) /\
  (8 mod 4 = 0 -> 12 mod 4 = 0 ->
   px_from_abs 8 12 = Ok (tile_centre (8 / 4) (12 / 4))).
Proof.
  split; [unfold GRID_W, GRID_H; lia |].
  apply (px_from_abs_on_board 8 12); unfold GRID_W, GRID_H; lia.
Defined.
